(** * Apocrypha document retrieval: the scanner and the matcher

    A shallow embedding of [document_search.py] (the retrieval engine of the
    chat demo) and the properties its specification states about it.

    Text is modelled as [string]: a sequence of 8-bit characters read as the
    code points U+0000..U+00FF, with Python's classification of exactly those
    code points ([str.isalnum], [str.isspace], [str.lower]).  Sets of tokens
    are [gset string]; a directory tree is a finite map from paths to nodes. *)

From Stdlib Require Import ZArith Ascii String Sorted Permutation.
From stdpp Require Import base gmap sets list strings sorting.

Local Open Scope Z_scope.

(* ===================================================================== *)
(** * Characters and strings as Python sees them *)
(* ===================================================================== *)

Module Py.

(** Code point of a character. *)
Definition ord (ch : ascii) : N := N_of_ascii ch.

Definition between (lo hi n : N) : bool := ((lo <=? n) && (n <=? hi))%N.

(** [ch.isalnum()]: letters and numeric characters.  Below U+0080 these are
    [0-9A-Za-z]; in U+0080..U+00FF the letters (all of U+00C0..U+00FF but
    the two operators U+00D7 and U+00F7, and U+00AA, U+00B5, U+00BA) and the
    numeric characters (superscripts U+00B2, U+00B3, U+00B9 and the vulgar
    fractions U+00BC..U+00BE). *)
Definition isalnum (ch : ascii) : bool :=
  let n := ord ch in
  between 48 57 n || between 65 90 n || between 97 122 n
  || (n =? 170)%N || between 178 179 n || (n =? 181)%N
  || between 185 186 n || between 188 190 n
  || between 192 214 n || between 216 246 n || between 248 255 n.

(** [ch.isspace()], which is also what [str.split()] separates on. *)
Definition isspace (ch : ascii) : bool :=
  let n := ord ch in
  between 9 13 n || between 28 32 n || (n =? 133)%N || (n =? 160)%N.

(** [ch.lower()]: the upper-case letters are [A-Z] and U+00C0..U+00DE
    without U+00D7; each lies 32 below its lower-case form. *)
Definition lower_char (ch : ascii) : ascii :=
  let n := ord ch in
  if between 65 90 n || between 192 214 n || between 216 222 n
  then ascii_of_N (n + 32)
  else ch.

(** [text.lower()]. *)
Fixpoint lower (text : string) : string :=
  match text with
  | EmptyString => EmptyString
  | String ch rest => String (lower_char ch) (lower rest)
  end.

(** [t in s] on strings: [t] occurs in [s] at some offset. *)
Fixpoint contains (t s : string) : bool :=
  String.prefix t s ||
  match s with
  | EmptyString => false
  | String _ rest => contains t rest
  end.

(** [s.split()]: the maximal runs of non-whitespace characters, from left to
    right; [cur] is the run being read. *)
Fixpoint split_from (cur s : string) : list string :=
  match s with
  | EmptyString => if String.eqb cur "" then [] else [cur]
  | String ch rest =>
      if isspace ch
      then (if String.eqb cur "" then split_from "" rest
            else cur :: split_from "" rest)
      else split_from (cur +:+ String ch "") rest
  end.

Definition split (s : string) : list string := split_from "" s.

(** [bool(s)] of a string: the empty string is the only false one. *)
Definition truthy (s : string) : bool := negb (String.eqb s "").

(** [scored[:k]]: a non-negative bound keeps the first [k] items, a negative
    one drops the last [-k]. *)
Definition slice_to {A} (k : Z) (l : list A) : list A :=
  if 0 <=? k then take (Z.to_nat k) l
  else take (length l - Z.to_nat (- k))%nat l.

(** [list.sort(key=...)] and [sorted]: ascending and stable.  An item is put
    in front of the first one that is not smaller, so items that compare equal
    keep the order in which they came. *)
Section Sort.
Context {A : Type} (leb : A → A → bool).

Fixpoint insert_sorted (x : A) (l : list A) : list A :=
  match l with
  | [] => [x]
  | y :: l' => if leb x y then x :: y :: l' else y :: insert_sorted x l'
  end.

Fixpoint sorted (l : list A) : list A :=
  match l with
  | [] => []
  | x :: l' => insert_sorted x (sorted l')
  end.
End Sort.

End Py.

(* ===================================================================== *)
(** * The matcher *)
(* ===================================================================== *)

(** [''.join(ch if ch.isalnum() else ' ' for ch in text)] *)
Fixpoint blank_non_alnum (text : string) : string :=
  match text with
  | EmptyString => EmptyString
  | String ch rest =>
      String (if Py.isalnum ch then ch else " "%char) (blank_non_alnum rest)
  end.

Definition _tokenize (text : string) : list string :=
  filter (λ t, Py.truthy t = true) (Py.split (blank_non_alnum (Py.lower text))).

Definition SEARCH_TRIGGER_KEYWORDS : gset string :=
  {[ "find"; "search"; "show"; "document"; "doc"; "contract"; "invoice";
     "report"; "handbook"; "slide"; "presentation"; "prd" ]}.

(** [any(k in tokens or k in query.lower() for k in SEARCH_TRIGGER_KEYWORDS)];
    the keywords are visited in the set's own order. *)
Definition looks_like_search (query : string) : bool :=
  let tokens : gset string := list_to_set (_tokenize query) in
  existsb (λ k, bool_decide (k ∈ tokens) || Py.contains k (Py.lower query))
          (elements SEARCH_TRIGGER_KEYWORDS).

(** One record of the scan.  Every record carries all five keys, so
    [rec.get("name", "")] is the [name] field.  [size_kb] counts tenths of a
    KiB: the one-decimal number that the source stores as a float. *)
Record FileRecord := {
  path : string;
  name : string;
  ext : string;
  size_kb : Z;
  modified_iso : string
}.

(** The body of the scoring loop up to the test [overlap > 0]. *)
Definition overlap_of (q_tokens : gset string) (rec : FileRecord) : nat :=
  let name_tokens : gset string := list_to_set (_tokenize (name rec)) in
  let overlap := size (q_tokens ∩ name_tokens) in
  if (overlap =? 0)%nat
     && existsb (λ t, Py.contains t (Py.lower (name rec))) (elements q_tokens)
  then 1%nat
  else overlap.

(** One turn of [for rec in records]: [scored.append((overlap, rec))] when
    the record matched. *)
Definition score_step (q_tokens : gset string)
    (scored : list (nat * FileRecord)) (rec : FileRecord)
    : list (nat * FileRecord) :=
  let overlap := overlap_of q_tokens rec in
  if (0 <? overlap)%nat then scored ++ [(overlap, rec)] else scored.

(** [lambda x: (-x[0], x[1].get("name", ""))] *)
Definition sort_key (x : nat * FileRecord) : Z * string :=
  (- Z.of_nat x.1, name x.2).

(** Order of the key tuples: first components first, then the names by code
    points, a proper prefix before its extensions. *)
Definition key_leb (a b : Z * string) : bool :=
  (a.1 <? b.1) || ((a.1 =? b.1) && String.leb a.2 b.2).

Definition scored_leb (x y : nat * FileRecord) : bool :=
  key_leb (sort_key x) (sort_key y).

Definition search_files (query : string) (records : list FileRecord) (k : Z)
    : list FileRecord :=
  if negb (Py.truthy query) || bool_decide (records = []) then []
  else
    let q_tokens : gset string := list_to_set (_tokenize query) in
    let scored := fold_left (score_step q_tokens) records [] in
    let scored := Py.sorted scored_leb scored in
    map snd (Py.slice_to k scored).

(** The default of the parameter [k]. *)
Definition default_k : Z := 5.

(* ===================================================================== *)
(** * The scanner *)
(* ===================================================================== *)

(** A path is the list of its components below the file-system root; paths
    compare by their components, as [pathlib] compares them. *)
Definition Path := list string.

Record stat_result := { st_size : Z; st_mtime : Z }.

(** The exceptions that the calls of the scanner raise. *)
Inductive exn := OSError | ValueError | OverflowError.

(** A call returns a value ([inr]) or raises ([inl]). *)
Definition bind {A B} (m : exn + A) (k : A → exn + B) : exn + B :=
  match m with
  | inl e => inl e
  | inr a => k a
  end.

Inductive kind := Directory | RegularFile | Special.

(** What the system answers for a path, links followed.  [Found k st]: the
    path names an entry of kind [k]; [st] is what a later [stat()] returns,
    [None] when that call fails because the entry is gone by then.  [Denied]:
    the query raises an [OSError] that [pathlib] does not take for "not
    there": the name is too long, or a directory on the way may not be
    searched.  A path without node is not there. *)
Inductive node :=
  | Found (k : kind) (st : option stat_result)
  | Denied.

(** The part of the machine the scanner reads: the working directory, the
    answers for the paths, the entries that are symbolic links, the
    canonical path of every path that is not its own canonical path, and
    [datetime.fromtimestamp(t).isoformat(timespec="seconds")], which raises
    for a timestamp that the platform or the calendar cannot hold. *)
Record filesystem := {
  cwd : Path;
  nodes : gmap Path node;
  symlinks : gset Path;
  realpath : gmap Path Path;
  local_iso : Z → exn + string
}.

(** [p.exists()], [p.is_dir()], [p.is_file()]: false for a path that is not
    there; any other [OSError] of the query is raised again. *)
Definition exists_ (fs : filesystem) (p : Path) : exn + bool :=
  match nodes fs !! p with
  | Some (Found _ _) => inr true
  | Some Denied => inl OSError
  | None => inr false
  end.

Definition is_dir (fs : filesystem) (p : Path) : exn + bool :=
  match nodes fs !! p with
  | Some (Found Directory _) => inr true
  | Some (Found _ _) => inr false
  | Some Denied => inl OSError
  | None => inr false
  end.

Definition is_file (fs : filesystem) (p : Path) : exn + bool :=
  match nodes fs !! p with
  | Some (Found RegularFile _) => inr true
  | Some (Found _ _) => inr false
  | Some Denied => inl OSError
  | None => inr false
  end.

(** [entry.stat()] *)
Definition stat (fs : filesystem) (p : Path) : exn + stat_result :=
  match nodes fs !! p with
  | Some (Found _ (Some st)) => inr st
  | _ => inl OSError
  end.

(** A directory that the pattern ["**"] goes into: a directory that is not
    a symbolic link. *)
Definition plain_dir (fs : filesystem) (p : Path) : bool :=
  match nodes fs !! p with
  | Some (Found Directory _) => bool_decide (p ∉ symlinks fs)
  | _ => false
  end.

(** [rest] leads from the directory [base] down to an entry: every step but
    the last goes into a directory below [base]. *)
Fixpoint descends (fs : filesystem) (base : Path) (rest : list string) : bool :=
  match rest with
  | [] => false
  | x :: rest' =>
      bool_decide (rest' = [])
      || (plain_dir fs (base ++ [x]) && descends fs (base ++ [x]) rest')
  end.

(** The entries below [root_path], in some order of the listing. *)
Definition entries_below (fs : filesystem) (root_path : Path) : list Path :=
  filter (λ p, root_path `prefix_of` p
               ∧ descends fs root_path (drop (length root_path) p) = true)
         (map_to_list (nodes fs)).*1.

(** [root_path.glob("**/*")], read to its end: nothing for a path that is
    not a directory. *)
Definition glob_all (fs : filesystem) (root_path : Path) : exn + list Path :=
  bind (is_dir fs root_path) (λ d,
    inr (if d then entries_below fs root_path else [])).

Fixpoint path_leb (p q : Path) : bool :=
  match p, q with
  | [], _ => true
  | _ :: _, [] => false
  | a :: p', b :: q' =>
      match String.compare a b with
      | Lt => true
      | Gt => false
      | Eq => path_leb p' q'
      end
  end.

(** [entry.name] *)
Definition path_name (p : Path) : string := List.last p "".

(** [name.rfind('.')], [None] for -1. *)
Fixpoint rfind_dot (s : string) : option nat :=
  match s with
  | EmptyString => None
  | String ch rest =>
      match rfind_dot rest with
      | Some i => Some (S i)
      | None => if Ascii.eqb ch "." then Some 0%nat else None
      end
  end.

(** [entry.suffix] *)
Definition suffix (p : Path) : string :=
  let nm := path_name p in
  match rfind_dot nm with
  | Some i =>
      if (0 <? i)%nat && (i <? String.length nm - 1)%nat
      then String.substring i (String.length nm - i) nm
      else ""
  | None => ""
  end.

(** [entry.resolve()]: the canonical path, which for an entry that is or
    lies behind a symbolic link is the path of the target. *)
Definition resolve (fs : filesystem) (p : Path) : Path :=
  default p (realpath fs !! p).

(** [str(path)] of an absolute path. *)
Fixpoint path_str (p : Path) : string :=
  match p with
  | [] => ""
  | x :: p' => "/" +:+ x +:+ path_str p'
  end.

Definition resolve_str (p : Path) : string :=
  match p with [] => "/" | _ => path_str p end.

(** [num / den] to the nearest integer, a tie going to the even one. *)
Definition round_half_even (num den : Z) : Z :=
  let q := num / den in
  let r := num mod den in
  if 2 * r <? den then q
  else if den <? 2 * r then q + 1
  else if Z.even q then q else q + 1.

(** The integer that the float of [n] holds: [n] itself below 2^53, else the
    nearest integer with 53 significant bits, a tie going to the even one. *)
Definition to_double (n : Z) : Z :=
  if Z.abs n <? 2 ^ 53 then n
  else
    let e := Z.log2 (Z.abs n) - 52 in
    2 ^ e * round_half_even n (2 ^ e).

(** [round(st_size / 1024, 1)] in tenths.  The division is the float
    division, exact on the float of the size; [round] then takes the nearest
    tenth of that quotient, a tie going to the even one. *)
Definition round_kb (size : Z) : Z :=
  round_half_even (10 * to_double size) 1024.

(** The [try] block: read the metadata, then build the record.  The
    conversion of the timestamp is the last entry of the dictionary. *)
Definition make_record (fs : filesystem) (entry : Path) : exn + FileRecord :=
  bind (stat fs entry) (λ st,
  bind (local_iso fs (st_mtime st)) (λ iso,
    inr {| path := resolve_str (resolve fs entry);
           name := path_name entry;
           ext := Py.lower (suffix entry);
           size_kb := round_kb (st_size st);
           modified_iso := iso |})).

(** One turn of [for entry in sorted(...)]: [except OSError: continue]
    catches the [OSError] of the [try] block and nothing else; the test
    [entry.is_file()] stands before the [try]. *)
Definition scan_step (fs : filesystem) (records : list FileRecord)
    (entry : Path) : exn + list FileRecord :=
  bind (is_file fs entry) (λ f,
    if f then
      match make_record fs entry with
      | inr rec => inr (records ++ [rec])
      | inl OSError => inr records
      | inl e => inl e
      end
    else inr records).

(** The loop: an exception of a turn ends it. *)
Fixpoint scan_entries (fs : filesystem) (entries : list Path)
    (records : list FileRecord) : exn + list FileRecord :=
  match entries with
  | [] => inr records
  | entry :: entries' =>
      bind (scan_step fs records entry) (scan_entries fs entries')
  end.

(** [a and b] on tests that may raise: [b] is asked only when [a] holds. *)
Definition and_then (a b : exn + bool) : exn + bool :=
  bind a (λ x, if x then b else inr false).

Definition _default_root (fs : filesystem) : exn + Path :=
  let app_root := cwd fs in
  let cand := app_root ++ ["dummy_data"] in
  bind (and_then (exists_ fs cand) (is_dir fs cand)) (λ c,
    if c then inr cand
    else
      let fallback := app_root ++ ["sample_data"] in
      bind (and_then (exists_ fs fallback) (is_dir fs fallback)) (λ f,
        inr (if f then fallback else cand))).

(** [root] is [None] for a missing or empty argument. *)
Definition scan_dummy_data (fs : filesystem) (root : option Path)
    : exn + list FileRecord :=
  bind (match root with Some r => inr r | None => _default_root fs end)
    (λ root_path,
  bind (and_then (exists_ fs root_path) (is_dir fs root_path)) (λ d,
    if d then
      bind (glob_all fs root_path) (λ entries,
        scan_entries fs (Py.sorted path_leb entries) [])
    else inr [])).

(* ===================================================================== *)
(** * The specification's vocabulary *)
(* ===================================================================== *)

(** The tokenizer as the specification words it: the text is cut at every
    whitespace character, which leaves an empty piece between two adjacent
    separators and at either end, and the empty pieces are dropped. *)
Fixpoint pieces_from (cur s : string) : list string :=
  match s with
  | EmptyString => [cur]
  | String ch rest =>
      if Py.isspace ch then cur :: pieces_from "" rest
      else pieces_from (cur +:+ String ch "") rest
  end.

Definition tokenize_spec (text : string) : list string :=
  filter (λ t, t ≠ "") (pieces_from "" (blank_non_alnum (Py.lower text))).

(** Every character of [s] satisfies [p]. *)
Fixpoint all_chars (p : ascii → bool) (s : string) : bool :=
  match s with
  | EmptyString => true
  | String ch rest => p ch && all_chars p rest
  end.

(** [t] is a literal substring of [s]. *)
Definition substring_of (t s : string) : Prop :=
  ∃ before after, s = before +:+ t +:+ after.

(** A blank text: nothing but whitespace. *)
Definition blank (text : string) : Prop := all_chars Py.isspace text = true.

(** The tokens of a query, as [search_files] holds them. *)
Definition query_tokens (query : string) : gset string :=
  list_to_set (_tokenize query).

(** The score [search_files] gives a record for a query. *)
Definition score (query : string) (rec : FileRecord) : nat :=
  overlap_of (query_tokens query) rec.

(** The records that score positively, in the order of the input. *)
Definition survivors (query : string) (records : list FileRecord)
    : list FileRecord :=
  filter (λ rec, (0 < score query rec)%nat) records.

(** [r1] may stand before [r2] in the ranking: a strictly higher score, or
    the same score and a name that is not greater. *)
Definition ranks_before (query : string) (r1 r2 : FileRecord) : Prop :=
  (score query r2 < score query r1)%nat
  ∨ (score query r1 = score query r2
     ∧ String.leb (name r1) (name r2) = true).

(** Two records tie: same score and same name. *)
Definition ties_with (query : string) (r1 r2 : FileRecord) : Prop :=
  score query r1 = score query r2 ∧ name r1 = name r2.

(** A record that has nothing but its name. *)
Definition named (nm : string) : FileRecord :=
  {| path := ""; name := nm; ext := ""; size_kb := 0; modified_iso := "" |}.

(** The order of two records under the key [(-overlap, name)]. *)
Definition record_leb (query : string) (r1 r2 : FileRecord) : bool :=
  key_leb (- Z.of_nat (score query r1), name r1)
          (- Z.of_nat (score query r2), name r2).

#[global] Instance ties_with_dec (query : string) (r1 r2 : FileRecord) :
  Decision (ties_with query r1 r2).
Proof. unfold ties_with. apply _. Defined.

(** The root that [scan_dummy_data] walks. *)
Definition root_path_of (fs : filesystem) (root : option Path) : exn + Path :=
  match root with Some r => inr r | None => _default_root fs end.

(** The entries of a scan in the order of the traversal. *)
Definition traversal (fs : filesystem) (root_path : Path) : list Path :=
  Py.sorted path_leb (entries_below fs root_path).

(** [p] lies below [root]: it is there, and each step from [root] towards
    it goes into a directory that is not a symbolic link. *)
Definition reachable (fs : filesystem) (root p : Path) : Prop :=
  ∃ rest, p = root ++ rest ∧ rest ≠ [] ∧ is_Some (nodes fs !! p)
          ∧ ∀ n, (0 < n < length rest)%nat →
                 plain_dir fs (root ++ take n rest) = true.

(** What one turn of the loop does with an entry: it raises, passes over
    the entry, or adds a record. *)
Definition entry_outcome (fs : filesystem) (p : Path)
    : exn + option FileRecord :=
  bind (is_file fs p) (λ f,
    if f then
      match make_record fs p with
      | inr rec => inr (Some rec)
      | inl OSError => inr None
      | inl e => inl e
      end
    else inr None).

(** The turn for [p] adds the record [rec]. *)
Definition recorded (fs : filesystem) (p : Path) (rec : FileRecord) : Prop :=
  entry_outcome fs p = inr (Some rec).

(** The turn for [p] does not raise. *)
Definition passes (fs : filesystem) (p : Path) : Prop :=
  ∃ o, entry_outcome fs p = inr o.

(** The record that the turn for [p] adds, if any. *)
Definition listed (fs : filesystem) (p : Path) : option FileRecord :=
  match entry_outcome fs p with
  | inr o => o
  | inl _ => None
  end.




Definition dir_node : node :=
  Found Directory (Some {| st_size := 4096; st_mtime := 0 |}).

Definition file_of (size mtime : Z) : node :=
  Found RegularFile (Some {| st_size := size; st_mtime := mtime |}).

(** A regular file that is gone when its metadata is read. *)
Definition file_gone : node := Found RegularFile None.

Definition epoch_iso (t : Z) : exn + string := inr "1970-01-01T00:00:00".

(** A small tree: [/app/sample_data] with three readable files, one of them
    in a subdirectory next to a file whose metadata cannot be read. *)
Definition sample_fs : filesystem :=
  {| cwd := ["app"];
     nodes := list_to_map
       [ (["app"], dir_node);
         (["app"; "sample_data"], dir_node);
         (["app"; "sample_data"; "b.txt"], file_of 256 0);
         (["app"; "sample_data"; "a"], dir_node);
         (["app"; "sample_data"; "a"; "z.TXT"], file_of 2048 0);
         (["app"; "sample_data"; "a"; "gone.txt"], file_gone);
         (["app"; "sample_data"; "a.txt"], file_of 1 0);
         (["app"; "other.txt"], file_of 1 0) ];
     symlinks := ∅;
     realpath := ∅;
     local_iso := epoch_iso |}.


(** [sample_data] with two readable files and, between them in the order of
    the traversal, a directory [b] that may be listed but not searched: its
    entry [x.txt] is found, and its status may not be asked. *)
Definition denied_fs : filesystem :=
  {| cwd := ["app"];
     nodes := list_to_map
       [ (["app"], dir_node);
         (["app"; "sample_data"], dir_node);
         (["app"; "sample_data"; "a.txt"], file_of 1 0);
         (["app"; "sample_data"; "b"], dir_node);
         (["app"; "sample_data"; "b"; "x.txt"], Denied);
         (["app"; "sample_data"; "c.txt"], file_of 1 0) ];
     symlinks := ∅;
     realpath := ∅;
     local_iso := epoch_iso |}.


(** [''.join(parts)] *)
Definition join_all (parts : list string) : string :=
  foldr String.append "" parts.

(** The characters of [s] that satisfy [p], in their order. *)
Fixpoint keep_chars (p : ascii → bool) (s : string) : string :=
  match s with
  | EmptyString => EmptyString
  | String ch rest =>
      if p ch then String ch (keep_chars p rest) else keep_chars p rest
  end.

(* ===================================================================== *)
(** * The lookup tables of the presentation and the application's use *)
(* ===================================================================== *)

(** The dictionary of [_guess_mime]; no key occurs twice. *)
Definition mime_types : gmap string string :=
  list_to_map
    [ (".txt", "text/plain");
      (".csv", "text/csv");
      (".xlsx",
       "application/vnd.openxmlformats-officedocument.spreadsheetml.sheet");
      (".xls", "application/vnd.ms-excel");
      (".png", "image/png");
      (".jpg", "image/jpeg");
      (".jpeg", "image/jpeg");
      (".pdf", "application/pdf") ].

(** [{...}.get(ext, "application/octet-stream")] *)
Definition _guess_mime (ext : string) : string :=
  default "application/octet-stream" (mime_types !! ext).

(** The icon literals hold characters above U+00FF; an icon is given by the
    code points of its literal. *)
Definition icon := list N.

Definition icon_txt : icon := [287; 376; 8220]%N.
Definition icon_csv : icon := [287; 376; 8220; 710]%N.
Definition icon_sheet : icon := [287; 376; 8220; 352]%N.
Definition icon_image : icon := [287; 376; 8211; 188; 239; 184]%N.
Definition icon_pdf : icon := [287; 376; 8220; 8222]%N.

(** The dictionary [mapping] of [_icon_for_ext]. *)
Definition icon_mapping : gmap string icon :=
  list_to_map
    [ (".txt", icon_txt);
      (".csv", icon_csv);
      (".xlsx", icon_sheet);
      (".xls", icon_sheet);
      (".png", icon_image);
      (".jpg", icon_image);
      (".jpeg", icon_image);
      (".pdf", icon_pdf) ].

(** [mapping.get(ext.lower(), ...)]: the default is the literal of ".pdf". *)
Definition _icon_for_ext (ext : string) : icon :=
  default icon_pdf (icon_mapping !! Py.lower ext).

(** [app.py]: [scan_dummy_data(root="sample_data")], the path being taken
    from the working directory; the call stands outside any [try]. *)
Definition session_records (fs : filesystem) : exn + list FileRecord :=
  scan_dummy_data fs (Some (cwd fs ++ ["sample_data"])).

(** [app.py]: [search_files(prompt, st.session_state["records"], k=5)]. *)
Definition related_documents (fs : filesystem) (prompt : string)
    : exn + list FileRecord :=
  bind (session_records fs) (λ records, inr (search_files prompt records 5)).

(** No character of [x] is the separator of path components. *)
Definition slash_free (x : string) : Prop :=
  all_chars (λ ch, negb (Ascii.eqb ch "/")) x = true.

(** The names in the tree are names of directory entries: none holds a
    separator. *)
Definition plain_names (fs : filesystem) : Prop :=
  map_Forall (λ p _, Forall slash_free p) (nodes fs).






(** The number of tokens that a query and a name share, both tokenized as
    the specification words it. *)
Definition shared_tokens (query nm : string) : nat :=
  size (list_to_set (tokenize_spec query) ∩ list_to_set (tokenize_spec nm)
        : gset string).

(* ===================================================================== *)
(** * Properties of the tokenizer *)
(* ===================================================================== *)

Section Tokenizer.

#[local] Arguments Py.isalnum : simpl never.
#[local] Arguments Py.isspace : simpl never.
#[local] Arguments Py.lower_char : simpl never.

Lemma truthy_iff (t : string) : Py.truthy t = true ↔ t ≠ "".
Proof.
  unfold Py.truthy. destruct (String.eqb_spec t ""); simpl; split; congruence.
Qed.

Lemma split_from_pieces (s cur : string) :
  Py.split_from cur s = filter (λ t, t ≠ "") (pieces_from cur s).
Proof.
  revert cur. induction s as [|ch rest IH]; intros cur; simpl.
  - destruct (String.eqb_spec cur "") as [->|Hne].
    + reflexivity.
    + rewrite filter_cons_True by done. reflexivity.
  - destruct (Py.isspace ch).
    + destruct (String.eqb_spec cur "") as [->|Hne].
      * rewrite filter_cons_False by (intros H; by apply H). apply IH.
      * rewrite filter_cons_True by done. by rewrite IH.
    + apply IH.
Qed.

Lemma filter_truthy (l : list string) :
  filter (λ t, Py.truthy t = true) l = filter (λ t, t ≠ "") l.
Proof.
  induction l as [|t l IH]; [reflexivity|].
  destruct (decide (t ≠ "")) as [Hne|Heq].
  - rewrite !filter_cons_True; [by rewrite IH | done | by apply truthy_iff].
  - rewrite !filter_cons_False; [done | done | by rewrite truthy_iff].
Qed.

Lemma tokenize_unfold (text : string) :
  _tokenize text = Py.split (blank_non_alnum (Py.lower text)).
Proof.
  unfold _tokenize, Py.split. rewrite filter_truthy, split_from_pieces.
  apply list_filter_filter_l. done.
Qed.

Lemma tokenize_spec_eq (text : string) : _tokenize text = tokenize_spec text.
Proof. rewrite tokenize_unfold. apply split_from_pieces. Qed.

Lemma all_chars_snoc (p : ascii → bool) (cur : string) (ch : ascii) :
  all_chars p cur = true → p ch = true →
  all_chars p (cur +:+ String ch "") = true.
Proof.
  intros Hcur Hch. induction cur as [|c cur IH]; simpl in *.
  - by rewrite Hch.
  - apply andb_true_iff in Hcur as [-> Hcur]. by apply IH.
Qed.

(** The runs that [split] returns are not empty and consist of the
    characters that are not whitespace. *)
Lemma split_from_runs (p : ascii → bool) (s cur : string) :
  all_chars (λ ch, Py.isspace ch || p ch) s = true →
  all_chars p cur = true →
  Forall (λ t, t ≠ "" ∧ all_chars p t = true) (Py.split_from cur s).
Proof.
  revert cur. induction s as [|ch rest IH]; intros cur Hs Hcur; simpl.
  - destruct (String.eqb_spec cur ""); repeat constructor; done.
  - simpl in Hs. apply andb_true_iff in Hs as [Hch Hs].
    destruct (Py.isspace ch); simpl in Hch.
    + destruct (String.eqb_spec cur "").
      * by apply IH.
      * constructor; [done | by apply IH].
    + apply IH; [done | by apply all_chars_snoc].
Qed.

Lemma lower_char_idem (ch : ascii) :
  Py.lower_char (Py.lower_char ch) = Py.lower_char ch.
Proof. destruct ch as [[] [] [] [] [] [] [] []]; reflexivity. Qed.

(** A character that survives the tokenizer: alphanumeric and unchanged by
    lowercasing. *)
Lemma blanked_chars (text : string) :
  all_chars (λ ch, Py.isspace ch
                   || (Py.isalnum ch && Ascii.eqb (Py.lower_char ch) ch))
            (blank_non_alnum (Py.lower text)) = true.
Proof.
  induction text as [|ch text IH]; [done|].
  cbn [Py.lower blank_non_alnum all_chars]. rewrite IH, andb_true_r.
  destruct (Py.isalnum (Py.lower_char ch)) eqn:Hal; [|reflexivity].
  rewrite Hal, lower_char_idem, Ascii.eqb_refl. apply orb_true_r.
Qed.

Lemma all_chars_token (t : string) :
  all_chars (λ ch, Py.isalnum ch && Ascii.eqb (Py.lower_char ch) ch) t = true →
  all_chars Py.isalnum t = true ∧ Py.lower t = t.
Proof.
  induction t as [|ch t IH]; simpl; [done|].
  rewrite !andb_true_iff. intros [[Hal Heq] Ht].
  destruct (IH Ht) as [-> ->]. apply Ascii.eqb_eq in Heq. by rewrite Hal, Heq.
Qed.

Lemma tokenize_tokens (text : string) :
  Forall (λ t, t ≠ "" ∧ all_chars Py.isalnum t = true ∧ Py.lower t = t)
         (_tokenize text).
Proof.
  rewrite tokenize_unfold. unfold Py.split.
  eapply Forall_impl.
  - apply (split_from_runs _ _ "" (blanked_chars text)). reflexivity.
  - intros t [Hne Ht]. split; [done|]. by apply all_chars_token.
Qed.

End Tokenizer.

(* ===================================================================== *)
(** * Properties of the string operations *)
(* ===================================================================== *)

Section Strings.

Lemma prefix_true_iff (t s : string) :
  String.prefix t s = true ↔ ∃ after, s = t +:+ after.
Proof.
  revert s. induction t as [|a t IH]; intros s; simpl.
  - destruct s; split; eauto.
  - destruct s as [|b s]; simpl.
    + split; [discriminate | intros [? ?]; discriminate].
    + destruct (ascii_dec a b) as [->|Hne].
      * rewrite IH. split; intros [after H]; exists after;
          [by rewrite H | by injection H].
      * split; [discriminate | intros [? H]; injection H; congruence].
Qed.

Lemma contains_cons (t : string) (c : ascii) (s : string) :
  Py.contains t (String c s)
  = String.prefix t (String c s) || Py.contains t s.
Proof. reflexivity. Qed.

Lemma contains_true_iff (t s : string) :
  Py.contains t s = true ↔ substring_of t s.
Proof.
  unfold substring_of. split.
  - induction s as [|c s IH].
    + change (Py.contains t "") with (String.prefix t "" || false).
      rewrite orb_false_r. intros H.
      apply prefix_true_iff in H as [after H]. by exists "", after.
    + rewrite contains_cons, orb_true_iff. intros [H|H].
      * apply prefix_true_iff in H as [after H]. by exists "", after.
      * destruct (IH H) as (before & after & ->).
        by exists (String c before), after.
  - intros (before & after & ->).
    induction before as [|c before IH].
    + assert (Hp : String.prefix t ("" +:+ t +:+ after) = true)
        by (apply prefix_true_iff; by exists after).
      destruct ("" +:+ t +:+ after) as [|c s'].
      * change (Py.contains t "") with (String.prefix t "" || false).
        by rewrite Hp.
      * by rewrite contains_cons, Hp.
    + change (String c before +:+ t +:+ after)
        with (String c (before +:+ t +:+ after)).
      rewrite contains_cons, IH. apply orb_true_r.
Qed.

Lemma existsb_elements {A} `{Countable A} (f : A → bool) (X : gset A) :
  existsb f (elements X) = true ↔ ∃ x, x ∈ X ∧ f x = true.
Proof.
  rewrite existsb_exists. split; intros (x & Hx & Hf); exists x; split;
    try done; [apply elem_of_elements, list_elem_of_In | apply list_elem_of_In, elem_of_elements]; done.
Qed.

End Strings.

(** C6. [looks_like_search text] holds exactly when a keyword of the trigger
    set, which is the twelve words listed, is a token of the tokenized text
    or a substring of the lowercased text.  The predicate is a function of
    the text alone. *)
Theorem looks_like_search_iff (text : string) :
  (looks_like_search text = true ↔
     ∃ k, k ∈ SEARCH_TRIGGER_KEYWORDS
          ∧ (k ∈ _tokenize text ∨ substring_of k (Py.lower text)))
  ∧ (∀ k, k ∈ SEARCH_TRIGGER_KEYWORDS ↔
       k ∈ ["find"; "search"; "show"; "document"; "doc"; "contract";
            "invoice"; "report"; "handbook"; "slide"; "presentation"; "prd"]).
Proof.
  split.
  - unfold looks_like_search. rewrite existsb_elements.
    split; intros (k & Hk & H); exists k; split; try done.
    + apply orb_true_iff in H as [H|H].
      * left. apply bool_decide_eq_true in H. by apply elem_of_list_to_set in H.
      * right. by apply contains_true_iff.
    + apply orb_true_iff. destruct H as [H|H].
      * left. apply bool_decide_eq_true. by apply elem_of_list_to_set.
      * right. by apply contains_true_iff.
  - intros k. unfold SEARCH_TRIGGER_KEYWORDS.
    rewrite !elem_of_union, !elem_of_singleton, !elem_of_cons, elem_of_nil.
    tauto.
Qed.

(* ===================================================================== *)
(** * Properties of the stable sort *)
(* ===================================================================== *)

Section SortFacts.
Context {A : Type} (leb : A → A → bool).

Lemma insert_sorted_perm (x : A) (l : list A) :
  Py.insert_sorted leb x l ≡ₚ x :: l.
Proof.
  induction l as [|y l IH]; simpl; [done|].
  destruct (leb x y); [done|]. rewrite IH. apply Permutation_swap.
Qed.

Lemma sorted_perm (l : list A) : Py.sorted leb l ≡ₚ l.
Proof.
  induction l as [|x l IH]; simpl; [done|].
  by rewrite insert_sorted_perm, IH.
Qed.

Lemma sorted_length (l : list A) : length (Py.sorted leb l) = length l.
Proof. apply Permutation_length, sorted_perm. Qed.

(** Items that compare equal among themselves come out in the order they
    went in. *)
Lemma insert_sorted_stable (P : A → Prop) `{∀ x, Decision (P x)}
    (x : A) (l : list A) :
  (∀ a b, P a → P b → leb a b = true) →
  filter P (Py.insert_sorted leb x l) = filter P (x :: l).
Proof.
  intros Heq. induction l as [|y l IH]; simpl; [done|].
  destruct (leb x y) eqn:Hxy; [done|].
  rewrite (filter_cons _ y), IH, !(filter_cons _ x), !(filter_cons _ y).
  destruct (decide (P x)) as [Hx|Hx], (decide (P y)) as [Hy|Hy]; try done.
  rewrite (Heq x y Hx Hy) in Hxy. discriminate.
Qed.

Lemma sorted_stable (P : A → Prop) `{∀ x, Decision (P x)} (l : list A) :
  (∀ a b, P a → P b → leb a b = true) →
  filter P (Py.sorted leb l) = filter P l.
Proof.
  intros Heq. induction l as [|x l IH]; simpl; [done|].
  rewrite insert_sorted_stable by done.
  by rewrite !(filter_cons _ x), IH.
Qed.

Hypothesis leb_total : ∀ x y, leb x y = true ∨ leb y x = true.
Hypothesis leb_trans :
  ∀ x y z, leb x y = true → leb y z = true → leb x z = true.

Lemma insert_sorted_StronglySorted (x : A) (l : list A) :
  StronglySorted (λ a b, leb a b = true) l →
  StronglySorted (λ a b, leb a b = true) (Py.insert_sorted leb x l).
Proof.
  induction 1 as [|y l Hl IH Hy]; simpl.
  - repeat constructor.
  - destruct (leb x y) eqn:Hxy.
    + constructor; [by constructor|].
      constructor; [done|]. eapply Forall_impl; [exact Hy|].
      intros z Hz. by eapply leb_trans.
    + constructor; [done|].
      rewrite insert_sorted_perm. constructor; [|done].
      destruct (leb_total x y); congruence.
Qed.

Lemma sorted_StronglySorted (l : list A) :
  StronglySorted (λ a b, leb a b = true) (Py.sorted leb l).
Proof.
  induction l; simpl; [constructor|].
  by apply insert_sorted_StronglySorted.
Qed.
End SortFacts.

(** A sorted and stable rearrangement is unique: the order [R] places the
    items up to ties [E], and stability places the items that tie. *)
Section StableUnique.
Context {A : Type} (R E : A → A → Prop) `{∀ x y, Decision (E x y)}.
Hypothesis E_refl : ∀ x, E x x.
Hypothesis R_both_E : ∀ x y, R x y → R y x → E x y.

Lemma stable_sorted_unique (l1 l2 : list A) :
  l1 ≡ₚ l2 → StronglySorted R l1 → StronglySorted R l2 →
  (∀ c, filter (E c) l1 = filter (E c) l2) →
  l1 = l2.
Proof.
  revert l2. induction l1 as [|x l1 IH]; intros l2 Hperm Hs1 Hs2 Hst.
  - by apply Permutation_nil in Hperm.
  - destruct l2 as [|y l2]; [by apply Permutation_sym, Permutation_nil in Hperm|].
    apply StronglySorted_inv in Hs1 as [Hs1 Hx].
    apply StronglySorted_inv in Hs2 as [Hs2 Hy].
    assert (x = y) as <-.
    { assert (Hxin : x ∈ y :: l2) by (rewrite <- Hperm; left).
      assert (Hyin : y ∈ x :: l1) by (rewrite Hperm; left).
      apply elem_of_cons in Hxin as [?|Hxin]; [done|].
      apply elem_of_cons in Hyin as [?|Hyin]; [done|].
      assert (Hxy : E x y).
      { apply R_both_E.
        - by eapply Forall_forall in Hx.
        - by eapply Forall_forall in Hy. }
      specialize (Hst x). rewrite !filter_cons in Hst.
      rewrite decide_True in Hst by apply E_refl.
      rewrite decide_True in Hst by done. by injection Hst. }
    f_equal. apply IH; try done.
    + by apply Permutation_cons_inv in Hperm.
    + intros c. specialize (Hst c). rewrite !filter_cons in Hst.
      destruct (decide (E c x)); [by injection Hst | done].
Qed.
End StableUnique.

Section Orders.

Lemma string_compare_refl (s : string) : String.compare s s = Eq.
Proof.
  induction s as [|a s IH]; simpl; [done|].
  unfold Ascii.compare. by rewrite N.compare_refl.
Qed.

Lemma string_compare_lt_trans (s1 s2 s3 : string) :
  String.compare s1 s2 = Lt → String.compare s2 s3 = Lt →
  String.compare s1 s3 = Lt.
Proof.
  revert s2 s3. induction s1 as [|a s1 IH]; intros [|b s2] [|c s3];
    simpl; try done.
  unfold Ascii.compare.
  destruct (N.compare_spec (N_of_ascii a) (N_of_ascii b)),
           (N.compare_spec (N_of_ascii b) (N_of_ascii c)),
           (N.compare_spec (N_of_ascii a) (N_of_ascii c));
    try done; try lia.
  apply IH.
Qed.

Lemma string_leb_refl (s : string) : String.leb s s = true.
Proof. unfold String.leb. by rewrite string_compare_refl. Qed.

Lemma string_leb_trans (s1 s2 s3 : string) :
  String.leb s1 s2 = true → String.leb s2 s3 = true →
  String.leb s1 s3 = true.
Proof.
  unfold String.leb.
  destruct (String.compare s1 s2) eqn:H12; [|  |done].
  - apply String.compare_eq_iff in H12 as ->. done.
  - destruct (String.compare s2 s3) eqn:H23; [| |done]; intros _ _.
    + apply String.compare_eq_iff in H23 as <-. by rewrite H12.
    + by rewrite (string_compare_lt_trans _ _ _ H12 H23).
Qed.

Lemma key_leb_total (a b : Z * string) :
  key_leb a b = true ∨ key_leb b a = true.
Proof.
  destruct a as [m s], b as [n t]. unfold key_leb. simpl.
  destruct (Z.ltb_spec m n), (Z.ltb_spec n m), (Z.eqb_spec m n),
    (Z.eqb_spec n m); simpl; auto; try lia.
  apply String.leb_total.
Qed.

Lemma key_leb_trans (a b c : Z * string) :
  key_leb a b = true → key_leb b c = true → key_leb a c = true.
Proof.
  destruct a as [m s], b as [n t], c as [o u]. unfold key_leb. simpl.
  destruct (Z.ltb_spec m n), (Z.ltb_spec n o), (Z.ltb_spec m o),
    (Z.eqb_spec m n), (Z.eqb_spec n o), (Z.eqb_spec m o);
    simpl; auto; try lia; try discriminate.
  apply string_leb_trans.
Qed.

Lemma key_leb_refl (a : Z * string) : key_leb a a = true.
Proof.
  destruct a as [m s]. unfold key_leb. simpl.
  rewrite Z.eqb_refl, string_leb_refl. apply orb_true_r.
Qed.




End Orders.

(* ===================================================================== *)
(** * Properties of the matcher *)
(* ===================================================================== *)

Section Matcher.

Lemma sorted_map {A B} (f : A → B) (leb : B → B → bool) (l : list A) :
  Py.sorted leb (map f l) = map f (Py.sorted (λ x y, leb (f x) (f y)) l).
Proof.
  induction l as [|x l IH]; simpl; [done|]. rewrite IH.
  generalize (Py.sorted (λ x y, leb (f x) (f y)) l). intros l'.
  induction l' as [|y l' IH']; simpl; [done|].
  destruct (leb (f x) (f y)); simpl; [done|]. by rewrite IH'.
Qed.

Lemma slice_to_map {A B} (f : A → B) (k : Z) (l : list A) :
  map f (Py.slice_to k l) = Py.slice_to k (map f l).
Proof.
  unfold Py.slice_to. rewrite length_map.
  destruct (0 <=? k); apply (fmap_take f).
Qed.

Lemma overlap_of_empty (rec : FileRecord) : overlap_of ∅ rec = 0%nat.
Proof.
  unfold overlap_of. cbv zeta. rewrite elements_empty. simpl existsb.
  rewrite andb_false_r, intersection_empty_l_L. apply size_empty.
Qed.

(** The loop appends, in order, the positively scored records with their
    scores. *)
Lemma score_loop (Q : gset string) (records : list FileRecord)
    (acc : list (nat * FileRecord)) :
  fold_left (score_step Q) records acc
  = acc ++ map (λ rec, (overlap_of Q rec, rec))
               (filter (λ rec, (0 < overlap_of Q rec)%nat) records).
Proof.
  revert acc. induction records as [|rec records IH]; intros acc; simpl.
  - by rewrite app_nil_r.
  - rewrite IH, filter_cons. unfold score_step.
    destruct (Nat.ltb_spec 0 (overlap_of Q rec)) as [Hpos|Hzero].
    + rewrite decide_True by done. simpl. by rewrite <- app_assoc.
    + rewrite decide_False by lia. done.
Qed.

Lemma record_leb_iff (query : string) (r1 r2 : FileRecord) :
  record_leb query r1 r2 = true ↔ ranks_before query r1 r2.
Proof.
  unfold record_leb, key_leb, ranks_before. simpl.
  rewrite orb_true_iff, andb_true_iff, Z.ltb_lt, Z.eqb_eq.
  split; (intros [H|[H1 H2]]; [left; lia | right; split; [lia | done]]).
Qed.

Lemma slice_to_nil {A} (k : Z) : Py.slice_to k (@nil A) = [].
Proof. unfold Py.slice_to. destruct (0 <=? k); apply take_nil. Qed.

Lemma tokenize_empty : _tokenize "" = [].
Proof. reflexivity. Qed.

Lemma survivors_empty_query (records : list FileRecord) :
  survivors "" records = [].
Proof.
  unfold survivors. induction records as [|rec records IH]; [done|].
  rewrite filter_cons_False; [done|].
  unfold score, query_tokens. rewrite tokenize_empty. simpl.
  rewrite overlap_of_empty. lia.
Qed.

(** The whole of [search_files], early returns included. *)
Lemma search_files_unfold (query : string) (records : list FileRecord) (k : Z) :
  search_files query records k
  = Py.slice_to k (Py.sorted (record_leb query) (survivors query records)).
Proof.
  assert (Hgen :
    map snd (Py.slice_to k (Py.sorted scored_leb
      (fold_left (score_step (query_tokens query)) records [])))
    = Py.slice_to k (Py.sorted (record_leb query) (survivors query records))).
  { rewrite score_loop. simpl. rewrite sorted_map, slice_to_map.
    rewrite map_map. simpl. by rewrite map_id. }
  unfold search_files, Py.truthy.
  destruct (String.eqb_spec query "") as [->|Hq]; cbn [negb orb].
  - rewrite survivors_empty_query. cbn [Py.sorted]. by rewrite slice_to_nil.
  - destruct records as [|rec records].
    + rewrite bool_decide_eq_true_2 by done. unfold survivors.
      rewrite filter_nil. cbn [Py.sorted]. by rewrite slice_to_nil.
    + rewrite bool_decide_eq_false_2 by done. exact Hgen.
Qed.

Lemma slice_to_subseteq {A} (k : Z) (l : list A) (x : A) :
  x ∈ Py.slice_to k l → x ∈ l.
Proof.
  unfold Py.slice_to. destruct (0 <=? k); apply subseteq_take.
Qed.

Lemma slice_to_ge {A} (k : Z) (l : list A) :
  Z.of_nat (length l) ≤ k → Py.slice_to k l = l.
Proof.
  intros Hk. unfold Py.slice_to.
  destruct (Z.leb_spec 0 k); [|lia]. apply take_ge. lia.
Qed.

Lemma slice_to_pos {A} (k : Z) (l : list A) :
  0 ≤ k → Py.slice_to k l = take (Z.to_nat k) l.
Proof. intros Hk. unfold Py.slice_to. by destruct (Z.leb_spec 0 k); [|lia]. Qed.

Lemma survivors_length (query : string) (records : list FileRecord) :
  (length (survivors query records) ≤ length records)%nat.
Proof. apply length_filter. Qed.

(** With the cap at the number of records nothing is cut off. *)
Lemma search_files_full (query : string) (records : list FileRecord) :
  search_files query records (Z.of_nat (length records))
  = Py.sorted (record_leb query) (survivors query records).
Proof.
  rewrite search_files_unfold. apply slice_to_ge.
  rewrite sorted_length. pose proof (survivors_length query records). lia.
Qed.

Lemma record_leb_total (query : string) (r1 r2 : FileRecord) :
  record_leb query r1 r2 = true ∨ record_leb query r2 r1 = true.
Proof. apply key_leb_total. Qed.

Lemma record_leb_trans (query : string) (r1 r2 r3 : FileRecord) :
  record_leb query r1 r2 = true → record_leb query r2 r3 = true →
  record_leb query r1 r3 = true.
Proof. apply key_leb_trans. Qed.

Lemma StronglySorted_impl {A} (R S : A → A → Prop) (l : list A) :
  (∀ x y, R x y → S x y) → StronglySorted R l → StronglySorted S l.
Proof.
  intros HRS. induction 1 as [|x l Hl IH Hx]; constructor; [done|].
  eapply Forall_impl; [exact Hx|]. intros y. apply HRS.
Qed.

Lemma ranks_before_both (query : string) (r1 r2 : FileRecord) :
  ranks_before query r1 r2 → ranks_before query r2 r1 → ties_with query r1 r2.
Proof.
  unfold ranks_before, ties_with.
  intros [H1|[H1 L1]] [H2|[H2 L2]]; try lia.
  split; [done|]. by apply String.leb_antisym.
Qed.

(** What the sort does to the surviving records. *)
Lemma ranking_facts (query : string) (records : list FileRecord) :
  let ranked := Py.sorted (record_leb query) (survivors query records) in
  ranked ≡ₚ survivors query records
  ∧ StronglySorted (ranks_before query) ranked
  ∧ (∀ rec, filter (ties_with query rec) ranked
            = filter (ties_with query rec) (survivors query records)).
Proof.
  intros ranked. split; [apply sorted_perm|]. split.
  - eapply StronglySorted_impl; [intros x y; apply record_leb_iff|].
    apply sorted_StronglySorted;
      [apply record_leb_total | apply record_leb_trans].
  - intros rec. apply sorted_stable. intros a b [Ha1 Ha2] [Hb1 Hb2].
    unfold record_leb. rewrite <- Ha1, <- Hb1, <- Ha2, <- Hb2.
    apply key_leb_refl.
Qed.

Lemma overlap_of_cases (Q : gset string) (rec : FileRecord) :
  let N : gset string := list_to_set (_tokenize (name rec)) in
  let hit := ∃ t, t ∈ Q ∧ substring_of t (Py.lower (name rec)) in
  (size (Q ∩ N) ≠ 0%nat → overlap_of Q rec = size (Q ∩ N))
  ∧ (size (Q ∩ N) = 0%nat → hit → overlap_of Q rec = 1%nat)
  ∧ (size (Q ∩ N) = 0%nat → ¬ hit → overlap_of Q rec = 0%nat).
Proof.
  intros N hit. unfold overlap_of. cbv zeta. fold N.
  assert (Hhit : existsb (λ t, Py.contains t (Py.lower (name rec)))
                   (elements Q) = true ↔ hit).
  { rewrite existsb_elements. unfold hit.
    split; intros (t & Ht & H); exists t; split; try done;
      by apply contains_true_iff. }
  destruct (Nat.eqb_spec (size (Q ∩ N)) 0) as [Hz|Hnz]; cbn [andb].
  - destruct (existsb _ (elements Q)).
    + repeat split; try done. intros _ Hn. destruct Hn. by apply Hhit.
    + repeat split; try done. intros _ Hh. apply Hhit in Hh. discriminate.
  - repeat split; done.
Qed.

(** A record scores positively only through a query token that is a token
    of its name or a substring of its lowercased name. *)
Lemma score_pos_token (query : string) (rec : FileRecord) :
  (0 < score query rec)%nat →
  ∃ t, t ∈ _tokenize query
       ∧ (t ∈ _tokenize (name rec) ∨ substring_of t (Py.lower (name rec))).
Proof.
  unfold score. intros Hpos.
  destruct (overlap_of_cases (query_tokens query) rec) as (H1 & H2 & H3).
  destruct (decide (size (query_tokens query
                          ∩ list_to_set (_tokenize (name rec))) = 0%nat))
    as [Hz|Hnz].
  - destruct (existsb (λ t, Py.contains t (Py.lower (name rec)))
                (elements (query_tokens query))) eqn:Hex.
    + apply existsb_elements in Hex as (t & Ht & Hc). exists t. split.
      * by apply elem_of_list_to_set in Ht.
      * right. by apply contains_true_iff.
    + rewrite H3 in Hpos; [lia | done |].
      intros (t & Ht & Hs).
      assert (existsb (λ t, Py.contains t (Py.lower (name rec)))
                (elements (query_tokens query)) = true); [|congruence].
      apply existsb_elements. exists t. split; [done|].
      by apply contains_true_iff.
  - apply size_non_empty_iff in Hnz. apply set_choose in Hnz as [t Ht].
    apply elem_of_intersection in Ht as [Ht1 Ht2].
    exists t. split; [by apply elem_of_list_to_set in Ht1|].
    left. by apply elem_of_list_to_set in Ht2.
Qed.

Lemma isspace_not_alnum (ch : ascii) :
  Py.isspace ch = true → Py.isalnum (Py.lower_char ch) = false.
Proof.
  destruct ch as [[] [] [] [] [] [] [] []]; vm_compute; congruence.
Qed.

Lemma blank_no_tokens (query : string) : blank query → _tokenize query = [].
Proof.
  unfold blank. intros Hb. rewrite tokenize_unfold. unfold Py.split.
  induction query as [|ch query IH]; [done|].
  cbn [all_chars] in Hb. apply andb_true_iff in Hb as [Hch Hb].
  cbn [Py.lower blank_non_alnum]. rewrite (isspace_not_alnum _ Hch).
  change (Py.split_from "" (blank_non_alnum (Py.lower query)) = []).
  by apply IH.
Qed.

Lemma survivors_no_tokens (query : string) (records : list FileRecord) :
  _tokenize query = [] → survivors query records = [].
Proof.
  intros Hq. unfold survivors.
  induction records as [|rec records IH]; [done|].
  rewrite filter_cons_False; [done|].
  unfold score, query_tokens. rewrite Hq. simpl.
  rewrite overlap_of_empty. lia.
Qed.

End Matcher.

(** C1. A record's score is the number of tokens that the query and the
    record's name share; when they share none and some query token is a
    substring of the lowercased name, it is 1, and otherwise 0.  The loop
    keeps exactly the positively scored records, so a record of score 0 is
    nowhere in the result, and every positively scored record is in the
    result when the cap does not cut it off.  This holds for every query;
    for the empty one every score is 0.  Query "inv" scores 1 against the
    name "invoice_final.pdf", which shares no token with it, and the record
    is returned. *)
Theorem search_files_scoring (query : string) (records : list FileRecord)
    (k : Z) :
  (∀ rec,
     let Q : gset string := list_to_set (_tokenize query) in
     let N : gset string := list_to_set (_tokenize (name rec)) in
     let hit := ∃ t, t ∈ Q ∧ substring_of t (Py.lower (name rec)) in
     (size (Q ∩ N) ≠ 0%nat → score query rec = size (Q ∩ N))
     ∧ (size (Q ∩ N) = 0%nat → hit → score query rec = 1%nat)
     ∧ (size (Q ∩ N) = 0%nat → ¬ hit → score query rec = 0%nat))
  ∧ fold_left (score_step (list_to_set (_tokenize query))) records []
    = map (λ rec, (score query rec, rec))
          (filter (λ rec, (0 < score query rec)%nat) records)
  ∧ (∀ rec, rec ∈ search_files query records k →
            rec ∈ records ∧ (0 < score query rec)%nat)
  ∧ (∀ rec, rec ∈ records → (0 < score query rec)%nat →
            Z.of_nat (length records) ≤ k →
            rec ∈ search_files query records k)
  ∧ size (query_tokens "inv"
          ∩ list_to_set (_tokenize "invoice_final.pdf")) = 0%nat
  ∧ score "inv" (named "invoice_final.pdf") = 1%nat
  ∧ search_files "inv" [named "invoice_final.pdf"] default_k
    = [named "invoice_final.pdf"].
Proof.
  split; [intros rec; apply overlap_of_cases|].
  split; [apply (score_loop _ records [])|].
  split; [|split].
  - intros rec Hin. rewrite search_files_unfold in Hin.
    apply slice_to_subseteq in Hin. rewrite sorted_perm in Hin.
    apply list_elem_of_filter in Hin as [Hpos Hin]. done.
  - intros rec Hin Hpos Hk. rewrite search_files_unfold, slice_to_ge.
    + rewrite sorted_perm. by apply list_elem_of_filter.
    + rewrite sorted_length. pose proof (survivors_length query records). lia.
  - repeat split; vm_compute; reflexivity.
Qed.

(** C2. The full ranking (the result when the cap is the number of records)
    is a rearrangement of the positively scored records in which a record
    stands before another only with a strictly higher score, or the same
    score and a name that is not greater in the order of strings; records
    that tie on both keep the order of the input, and no other list has
    these three properties, so the ranking is determined by the input.  Every
    result is the slice [[:k]] of the full
    ranking and is sorted in the same way.  For the records named
    "Invoice_2023.pdf", "invoice_draft.txt" and "report.csv" and the query
    "invoice" the result is the first two, in that order, whatever the order
    of the input. *)
Theorem search_files_ranking (query : string) (records : list FileRecord)
    (k : Z) :
  let ranked := search_files query records (Z.of_nat (length records)) in
  ranked ≡ₚ filter (λ rec, (0 < score query rec)%nat) records
  ∧ StronglySorted (ranks_before query) ranked
  ∧ (∀ rec, filter (ties_with query rec) ranked
            = filter (ties_with query rec)
                (filter (λ rec, (0 < score query rec)%nat) records))
  ∧ (∀ l, l ≡ₚ filter (λ rec, (0 < score query rec)%nat) records →
          StronglySorted (ranks_before query) l →
          (∀ rec, filter (ties_with query rec) l
                  = filter (ties_with query rec)
                      (filter (λ rec, (0 < score query rec)%nat) records)) →
          l = ranked)
  ∧ search_files query records k = Py.slice_to k ranked
  ∧ StronglySorted (ranks_before query) (search_files query records k)
  ∧ search_files "invoice"
      [named "Invoice_2023.pdf"; named "invoice_draft.txt"; named "report.csv"]
      default_k
    = [named "Invoice_2023.pdf"; named "invoice_draft.txt"]
  ∧ search_files "invoice"
      [named "report.csv"; named "invoice_draft.txt"; named "Invoice_2023.pdf"]
      default_k
    = [named "Invoice_2023.pdf"; named "invoice_draft.txt"].
Proof.
  intros ranked. subst ranked. rewrite search_files_full.
  destruct (ranking_facts query records) as (Hperm & Hsorted & Hstable).
  split; [exact Hperm|]. split; [exact Hsorted|]. split; [exact Hstable|].
  split.
  { intros l Hl Hls Hlst.
    apply (stable_sorted_unique (ranks_before query) (ties_with query));
      [by split | apply ranks_before_both | by rewrite Hl, Hperm | done | done |].
    intros rec. by rewrite Hlst, Hstable. }
  split; [apply search_files_unfold|]. split.
  - rewrite search_files_unfold. unfold Py.slice_to.
    destruct (0 <=? k);
      match goal with |- StronglySorted _ (take ?n ?l) =>
        rewrite <- (take_drop n l) in Hsorted;
        by apply StronglySorted_app_1_l in Hsorted
      end.
  - split; vm_compute; reflexivity.
Qed.

(** C3. For a positive cap [k] the result has at most [k] records.  It is
    the first [k] records of the full ranking, which lists the positively
    scored records in the sort order: exactly [k] records when at least [k]
    score positively, and the whole ranking when fewer do. *)
Theorem search_files_truncation (query : string) (records : list FileRecord)
    (k : Z) :
  0 < k →
  let ranked := search_files query records (Z.of_nat (length records)) in
  let result := search_files query records k in
  let matching := filter (λ rec, (0 < score query rec)%nat) records in
  Z.of_nat (length result) ≤ k
  ∧ ranked ≡ₚ matching
  ∧ StronglySorted (ranks_before query) ranked
  ∧ (k ≤ Z.of_nat (length matching) →
       Z.of_nat (length result) = k ∧ result = take (Z.to_nat k) ranked)
  ∧ (Z.of_nat (length matching) < k → result = ranked ∧ result ≡ₚ matching).
Proof.
  intros Hk ranked result matching. subst ranked result.
  rewrite search_files_full, search_files_unfold, slice_to_pos by lia.
  destruct (ranking_facts query records) as (Hperm & Hsorted & _).
  assert (Hlen : length (Py.sorted (record_leb query) (survivors query records))
                 = length matching) by apply sorted_length.
  rewrite length_take, Hlen.
  split; [lia|]. split; [exact Hperm|]. split; [exact Hsorted|]. split.
  - intros Hge. split; [lia | done].
  - intros Hlt. rewrite take_ge by lia. done.
Qed.

Lemma search_files_truncation_witness :
  let records :=
    [named "report.csv"; named "invoice_draft.txt"; named "Invoice_2023.pdf"] in
  0 < 1
  ∧ Z.of_nat (length (search_files "invoice" records 1)) ≤ 1.
Proof.
  intros records. split; [lia|].
  exact (proj1 (search_files_truncation "invoice" records 1 eq_refl)).
Defined.

(** C5. The result is empty for the empty query and for a blank query,
    whatever the records and the cap, and for an empty list of records,
    whatever the query and the cap. *)
Theorem search_files_empty_inputs (query : string) (records : list FileRecord)
    (k : Z) :
  search_files "" records k = []
  ∧ (blank query → search_files query records k = [])
  ∧ search_files query [] k = [].
Proof.
  split; [|split].
  - reflexivity.
  - intros Hb. rewrite search_files_unfold.
    rewrite survivors_no_tokens by (by apply blank_no_tokens).
    apply slice_to_nil.
  - unfold search_files. by rewrite orb_true_r.
Qed.

Lemma search_files_empty_inputs_witness :
  blank "  " ∧ search_files "  " [named "report.csv"] default_k = [].
Proof.
  split; [reflexivity|].
  exact (proj1 (proj2 (search_files_empty_inputs "  " [named "report.csv"]
                         default_k)) eq_refl).
Defined.

(** C10. With the cap 0 the result is empty for every query and every list
    of records, so its length is at most [max k 0] there too. *)
Theorem search_files_zero_cap (query : string) (records : list FileRecord) :
  search_files query records 0 = []
  ∧ Z.of_nat (length (search_files query records 0)) ≤ Z.max 0 0.
Proof.
  assert (H : search_files query records 0 = []).
  { rewrite search_files_unfold. unfold Py.slice_to. simpl. apply take_0. }
  rewrite H. split; [done | simpl; lia].
Qed.

Section SharedTokenizer.

Lemma search_files_elem (query : string) (records : list FileRecord) (k : Z)
    (rec : FileRecord) :
  rec ∈ search_files query records k →
  rec ∈ records ∧ (0 < score query rec)%nat.
Proof.
  intros Hin. rewrite search_files_unfold in Hin.
  apply slice_to_subseteq in Hin. rewrite sorted_perm in Hin.
  apply list_elem_of_filter in Hin as [Hpos Hin]. done.
Qed.

Lemma search_files_sorted (query : string) (records : list FileRecord)
    (k : Z) :
  StronglySorted (ranks_before query) (search_files query records k).
Proof.
  destruct (ranking_facts query records) as (_ & Hsorted & _).
  cbv zeta in Hsorted. rewrite search_files_unfold. unfold Py.slice_to.
  destruct (0 <=? k);
    match goal with |- StronglySorted _ (take ?n ?l) =>
      rewrite <- (take_drop n l) in Hsorted;
      by apply StronglySorted_app_1_l in Hsorted
    end.
Qed.

(** A token of the query that is a token of the name, or a substring of the
    lowercased name, gives a positive score. *)
Lemma token_score_pos (query t : string) (rec : FileRecord) :
  t ∈ _tokenize query →
  t ∈ _tokenize (name rec) ∨ substring_of t (Py.lower (name rec)) →
  (0 < score query rec)%nat.
Proof.
  intros Ht Hhit. unfold score.
  destruct (overlap_of_cases (query_tokens query) rec) as (H1 & H2 & _).
  destruct (decide (size (query_tokens query
                          ∩ list_to_set (_tokenize (name rec))) = 0%nat))
    as [Hz|Hnz]; [|rewrite H1 by done; lia].
  destruct Hhit as [Hn|Hs].
  - exfalso. apply size_empty_iff in Hz.
    assert (Hin : t ∈ query_tokens query
                      ∩ (list_to_set (_tokenize (name rec)) : gset string)).
    { apply elem_of_intersection. split; by apply elem_of_list_to_set. }
    apply Hz in Hin. by apply not_elem_of_empty in Hin.
  - rewrite H2; [lia | done |]. exists t.
    split; [by apply elem_of_list_to_set | done].
Qed.

(** A positive score is the number of shared tokens, or 1 when none is
    shared. *)
Lemma score_pos_shared (query : string) (rec : FileRecord) :
  (0 < score query rec)%nat →
  score query rec = Nat.max 1 (shared_tokens query (name rec)).
Proof.
  unfold score, shared_tokens, query_tokens, overlap_of. cbv zeta.
  rewrite <- !tokenize_spec_eq.
  destruct (Nat.eqb_spec (size (list_to_set (_tokenize query)
              ∩ list_to_set (_tokenize (name rec)) : gset string)) 0)
    as [Hz|Hnz]; cbn [andb].
  - destruct (existsb _ _); rewrite Hz; [done | lia].
  - lia.
Qed.

Lemma StronglySorted_impl_elem {A} (R S : A → A → Prop) (l : list A) :
  (∀ x y, x ∈ l → y ∈ l → R x y → S x y) →
  StronglySorted R l → StronglySorted S l.
Proof.
  intros HRS Hl. induction Hl as [|x l Hl IH Hx]; constructor.
  - apply IH. intros a b Ha Hb. apply HRS; by right.
  - rewrite Forall_forall in Hx. apply Forall_forall. intros y Hy.
    apply HRS; [left | by right | by apply Hx].
Qed.

End SharedTokenizer.

(** C4. The tokenizer lowercases the text, turns every character that is not
    alphanumeric into a space, cuts the text at the whitespace and drops the
    empty pieces: it returns what the specification's wording computes, and
    each token is a non-empty run of alphanumeric characters in lower case.
    "Q4_Report-2023.pdf" gives "q4", "report", "2023", "pdf".  The query and
    the names of the records go through this one tokenizer: a record is
    returned only for a token of the query that is a token of its name or a
    substring of its lowercased name; when the cap cuts nothing off, every
    record with such a token is returned; and the records come in the order
    of the number of tokens that query and name share, counted as 1 when
    they share none. *)
Theorem tokenize_correct (text : string) :
  _tokenize text = tokenize_spec text
  ∧ Forall (λ t, t ≠ "" ∧ all_chars Py.isalnum t = true ∧ Py.lower t = t)
           (_tokenize text)
  ∧ _tokenize "Q4_Report-2023.pdf" = ["q4"; "report"; "2023"; "pdf"]
  ∧ (∀ records k rec,
       rec ∈ search_files text records k →
       rec ∈ records
       ∧ ∃ t, t ∈ tokenize_spec text
              ∧ (t ∈ tokenize_spec (name rec)
                 ∨ substring_of t (Py.lower (name rec))))
  ∧ (∀ records k rec t,
       rec ∈ records →
       t ∈ tokenize_spec text →
       t ∈ tokenize_spec (name rec) ∨ substring_of t (Py.lower (name rec)) →
       Z.of_nat (length records) ≤ k →
       rec ∈ search_files text records k)
  ∧ (∀ records k,
       Forall (λ rec, score text rec
                      = Nat.max 1 (shared_tokens text (name rec)))
              (search_files text records k))
  ∧ (∀ records k,
       StronglySorted
         (λ r1 r2, (Nat.max 1 (shared_tokens text (name r2))
                    ≤ Nat.max 1 (shared_tokens text (name r1)))%nat)
         (search_files text records k)).
Proof.
  split; [apply tokenize_spec_eq|]. split; [apply tokenize_tokens|].
  split; [reflexivity|].
  assert (Hscore : ∀ records k rec, rec ∈ search_files text records k →
            score text rec = Nat.max 1 (shared_tokens text (name rec))).
  { intros records k rec Hin. apply score_pos_shared.
    by apply search_files_elem in Hin as [_ ?]. }
  split; [|split; [|split]].
  - intros records k rec Hin.
    apply search_files_elem in Hin as [Hin Hpos]. split; [done|].
    rewrite <- !tokenize_spec_eq. by apply score_pos_token.
  - intros records k rec t Hin Ht Hhit Hk.
    rewrite <- !tokenize_spec_eq in *.
    rewrite search_files_unfold, slice_to_ge.
    + rewrite sorted_perm. apply list_elem_of_filter.
      split; [by apply (token_score_pos text t) | done].
    + rewrite sorted_length.
      pose proof (survivors_length text records). lia.
  - intros records k. apply Forall_forall. intros rec. apply Hscore.
  - intros records k.
    eapply StronglySorted_impl_elem; [|apply search_files_sorted].
    intros r1 r2 H1 H2 Hr. cbv beta.
    rewrite <- (Hscore _ _ _ H1), <- (Hscore _ _ _ H2).
    unfold ranks_before in Hr. lia.
Qed.

Lemma tokenize_correct_witness :
  named "Q4_Report-2023.pdf"
  ∈ search_files "report" [named "Q4_Report-2023.pdf"] 5.
Proof.
  apply (proj1 (proj2 (proj2 (proj2 (proj2 (tokenize_correct "report")))))
           [named "Q4_Report-2023.pdf"] 5 (named "Q4_Report-2023.pdf")
           "report").
  - left.
  - vm_compute. left.
  - left. vm_compute. right. left.
  - vm_compute. discriminate.
Defined.


(* ===================================================================== *)
(** * Properties of the scanner *)
(* ===================================================================== *)

Section Scanner.
Context (fs : filesystem).

Lemma scan_step_outcome (records : list FileRecord) (p : Path) :
  scan_step fs records p
  = bind (entry_outcome fs p) (λ o,
      inr (match o with Some rec => records ++ [rec] | None => records end)).
Proof.
  unfold scan_step, entry_outcome, bind.
  destruct (is_file fs p) as [e|[|]]; try done.
  by destruct (make_record fs p) as [[| |]|rec].
Qed.

(** The loop returns exactly when no turn raises; it then holds the records
    that the turns added, in their order. *)
Lemma scan_entries_returns (entries : list Path) (acc out : list FileRecord) :
  scan_entries fs entries acc = inr out
  ↔ Forall (passes fs) entries ∧ out = acc ++ omap (listed fs) entries.
Proof.
  revert acc. induction entries as [|p entries IH]; intros acc;
    cbn [scan_entries omap list_omap].
  - rewrite app_nil_r. split; [intros [= <-]; by split | by intros [_ ->]].
  - rewrite scan_step_outcome. unfold listed at 1.
    destruct (entry_outcome fs p) as [e|[rec|]] eqn:Ho; cbn [bind].
    + split; [discriminate|]. intros [Hall _].
      apply Forall_cons in Hall as [[o Ho'] _]. unfold passes in *. congruence.
    + rewrite IH, <- app_assoc. split; intros [Hall ->]; (split; [|done]).
      * constructor; [by eexists | done].
      * by apply Forall_cons in Hall as [_ ?].
    + rewrite IH. split; intros [Hall ->]; (split; [|done]).
      * constructor; [by eexists | done].
      * by apply Forall_cons in Hall as [_ ?].
Qed.

Lemma scan_entries_raises (entries : list Path) (acc : list FileRecord)
    (p : Path) (e : exn) :
  p ∈ entries → entry_outcome fs p = inl e →
  ∃ e', scan_entries fs entries acc = inl e'.
Proof.
  intros Hin He. destruct (scan_entries fs entries acc) as [e'|out] eqn:H;
    [by eexists|].
  apply scan_entries_returns in H as [Hall _]. rewrite Forall_forall in Hall.
  destruct (Hall p Hin) as [o Ho]. congruence.
Qed.

Lemma is_dir_exists (p : Path) :
  is_dir fs p = inr true → exists_ fs p = inr true.
Proof. unfold is_dir, exists_. by repeat case_match. Qed.

Lemma scan_unfold (root : option Path) (root_path : Path) :
  root_path_of fs root = inr root_path →
  is_dir fs root_path = inr true →
  scan_dummy_data fs root = scan_entries fs (traversal fs root_path) [].
Proof.
  intros Hroot Hdir. unfold scan_dummy_data. fold (root_path_of fs root).
  rewrite Hroot. cbn [bind]. unfold and_then, glob_all.
  rewrite (is_dir_exists _ Hdir). cbn [bind]. rewrite Hdir. done.
Qed.


Lemma descends_iff (base : Path) (rest : list string) :
  descends fs base rest = true
  ↔ rest ≠ [] ∧ ∀ n, (0 < n < length rest)%nat →
                     plain_dir fs (base ++ take n rest) = true.
Proof.
  revert base. induction rest as [|x rest IH]; intros base.
  - simpl. split; [discriminate | by intros [? _]].
  - cbn [descends]. rewrite orb_true_iff, andb_true_iff, IH,
      bool_decide_eq_true. split.
    + intros Hrest. split; [done|]. intros [|n] Hn; [lia|].
      destruct Hrest as [->|(Hx & _ & Hrest)]; [simpl in Hn; lia|].
      cbn [take]. rewrite (cons_middle x), app_assoc.
      destruct n as [|n]; [by rewrite take_0, app_nil_r|].
      apply Hrest. simpl in Hn. lia.
    + intros [_ Hall]. destruct rest as [|y rest]; [by left|]. right.
      split; [|split; [done|]].
      * specialize (Hall 1%nat). cbn [take] in Hall. apply Hall. simpl. lia.
      * intros n Hn. specialize (Hall (S n)). cbn [take] in Hall.
        rewrite (cons_middle x), app_assoc in Hall. apply Hall.
        simpl in *. lia.
Qed.

Lemma elem_of_entries_below (root p : Path) :
  p ∈ entries_below fs root ↔ reachable fs root p.
Proof.
  unfold entries_below, reachable.
  rewrite list_elem_of_filter, list_elem_of_fmap, descends_iff. split.
  - intros [[[rest ->] [Hne Hdirs]] ([q x] & Heq & Hin)].
    rewrite drop_app_length in Hne, Hdirs. exists rest.
    apply elem_of_map_to_list in Hin. simpl in Heq. subst q.
    rewrite Hin. eauto.
  - intros (rest & -> & Hne & [x Hx] & Hdirs). rewrite drop_app_length.
    split; [split; [by exists rest | done]|].
    exists (root ++ rest, x). split; [done|]. by apply elem_of_map_to_list.
Qed.

Lemma NoDup_entries_below (root : Path) : NoDup (entries_below fs root).
Proof. apply NoDup_filter, NoDup_fst_map_to_list. Qed.




Lemma elem_of_traversal (root p : Path) :
  p ∈ traversal fs root ↔ reachable fs root p.
Proof. unfold traversal. rewrite sorted_perm. apply elem_of_entries_below. Qed.

(** A turn adds a record exactly for a regular file whose metadata and
    timestamp can be read. *)
Lemma recorded_iff (p : Path) (rec : FileRecord) :
  recorded fs p rec
  ↔ ∃ st iso, nodes fs !! p = Some (Found RegularFile (Some st))
              ∧ local_iso fs (st_mtime st) = inr iso
              ∧ rec = {| path := resolve_str (resolve fs p);
                         name := path_name p;
                         ext := Py.lower (suffix p);
                         size_kb := round_kb (st_size st);
                         modified_iso := iso |}.
Proof.
  unfold recorded, entry_outcome, is_file, make_record, stat, bind. split.
  - destruct (nodes fs !! p) as [[[| |] [st|]|]|]; try done.
    destruct (local_iso fs (st_mtime st)) as [[| |]|iso] eqn:Hiso; try done.
    intros [= <-]. by exists st, iso.
  - intros (st & iso & -> & -> & ->). done.
Qed.

Lemma listed_Some (p : Path) (rec : FileRecord) :
  listed fs p = Some rec ↔ recorded fs p rec.
Proof.
  unfold listed, recorded. destruct (entry_outcome fs p) as [e|o];
    split; intros H; by simplify_eq.
Qed.


(** The records of a scan that returns, with the entries they stand for. *)
Lemma scan_listing (root : option Path) (root_path : Path)
    (records : list FileRecord) :
  root_path_of fs root = inr root_path →
  is_dir fs root_path = inr true →
  scan_dummy_data fs root = inr records →
  records = omap (listed fs) (traversal fs root_path)
  ∧ Forall (passes fs) (traversal fs root_path).
Proof.
  intros Hroot Hdir Hscan. rewrite (scan_unfold _ _ Hroot Hdir) in Hscan.
  apply scan_entries_returns in Hscan as [Hall ->]. done.
Qed.




End Scanner.




(** C8.  The scan does not keep what the claim says.  The test
    [entry.is_file()] stands before the [try]: for an entry whose status
    may not be asked it raises, the scan ends with that error and returns no
    record at all, although other files can be read.  Only a failure inside
    the [try], of [entry.stat()], is passed over as the claim says. *)
Theorem scan_aborts_on_unreadable_entry (fs : filesystem)
    (root : option Path) (root_path bad : Path) (e : exn) :
  root_path_of fs root = inr root_path →
  is_dir fs root_path = inr true →
  bad ∈ traversal fs root_path →
  is_file fs bad = inl e →
  (∃ e', scan_dummy_data fs root = inl e')
  ∧ (∀ records entry,
       is_file fs entry = inr true → stat fs entry = inl OSError →
       scan_step fs records entry = inr records)
  ∧ scan_dummy_data denied_fs None = inl OSError
  ∧ is_file denied_fs ["app"; "sample_data"; "a.txt"] = inr true
  ∧ is_file denied_fs ["app"; "sample_data"; "c.txt"] = inr true.
Proof.
  intros Hroot Hdir Hin He. split; [|split; [|by repeat split]].
  - rewrite (scan_unfold fs root root_path Hroot Hdir).
    apply (scan_entries_raises fs _ _ bad e); [done|].
    unfold entry_outcome. by rewrite He.
  - intros records entry Hfile Hstat. unfold scan_step, make_record.
    by rewrite Hfile, Hstat.
Qed.

Lemma scan_aborts_on_unreadable_entry_witness :
  is_file denied_fs ["app"; "sample_data"; "b"; "x.txt"] = inl OSError
  ∧ ∃ e', scan_dummy_data denied_fs None = inl e'.
Proof.
  split; [reflexivity|].
  refine (proj1 (scan_aborts_on_unreadable_entry denied_fs None
            ["app"; "sample_data"] ["app"; "sample_data"; "b"; "x.txt"]
            OSError eq_refl eq_refl _ eq_refl)).
  vm_compute. do 2 right. left.
Defined.




(* ===================================================================== *)
(** * Further properties of the tokenizer *)
(* ===================================================================== *)

Section TokenizerShape.

Lemma append_cons (c : ascii) (a b : string) :
  String c a +:+ b = String c (a +:+ b).
Proof. reflexivity. Qed.

Lemma append_nil_r (s : string) : s +:+ "" = s.
Proof.
  induction s as [|c s IH]; [done|].
  change (String c (s +:+ "") = String c s). by rewrite IH.
Qed.

Lemma append_assoc (a b c : string) : (a +:+ b) +:+ c = a +:+ (b +:+ c).
Proof.
  induction a as [|x a IH]; [done|].
  change (String x ((a +:+ b) +:+ c) = String x (a +:+ (b +:+ c))).
  by rewrite IH.
Qed.

(** Over the code points below U+0100 lowercasing looks at no neighbour of
    a character, so it goes through concatenation. *)
Lemma lower_app (a b : string) : Py.lower (a +:+ b) = Py.lower a +:+ Py.lower b.
Proof.
  induction a as [|c a IH]; [done|].
  rewrite append_cons. cbn [Py.lower]. by rewrite append_cons, IH.
Qed.

Lemma blank_app (a b : string) :
  blank_non_alnum (a +:+ b) = blank_non_alnum a +:+ blank_non_alnum b.
Proof.
  induction a as [|c a IH]; [done|].
  rewrite append_cons. cbn [blank_non_alnum]. by rewrite append_cons, IH.
Qed.

Lemma lower_idem (s : string) : Py.lower (Py.lower s) = Py.lower s.
Proof.
  induction s as [|c s IH]; [done|].
  cbn [Py.lower]. by rewrite lower_char_idem, IH.
Qed.

Lemma isalnum_not_space (ch : ascii) :
  Py.isalnum ch = true → Py.isspace ch = false.
Proof. destruct ch as [[] [] [] [] [] [] [] []]; vm_compute; congruence. Qed.

Lemma isalnum_lower_char (ch : ascii) :
  Py.isalnum (Py.lower_char ch) = Py.isalnum ch.
Proof. destruct ch as [[] [] [] [] [] [] [] []]; reflexivity. Qed.

Lemma isspace_space : Py.isspace " " = true.
Proof. reflexivity. Qed.

(** Joined, the runs of [split] are the characters that are not
    whitespace. *)
Lemma split_from_join (s cur : string) :
  join_all (Py.split_from cur s)
  = cur +:+ keep_chars (λ ch, negb (Py.isspace ch)) s.
Proof.
  revert cur. induction s as [|ch rest IH]; intros cur;
    cbn [Py.split_from keep_chars].
  - rewrite append_nil_r. destruct (String.eqb_spec cur "") as [->|]; [done|].
    apply append_nil_r.
  - destruct (Py.isspace ch); cbn [negb].
    + destruct (String.eqb_spec cur "") as [->|].
      * apply IH.
      * change (cur +:+ join_all (Py.split_from "" rest)
                = cur +:+ keep_chars (λ ch, negb (Py.isspace ch)) rest).
        by rewrite IH.
    + rewrite IH, append_assoc. done.
Qed.

Lemma keep_blank (u : string) :
  keep_chars (λ ch, negb (Py.isspace ch)) (blank_non_alnum u)
  = keep_chars Py.isalnum u.
Proof.
  induction u as [|ch u IH]; [done|]. cbn [blank_non_alnum keep_chars].
  destruct (Py.isalnum ch) eqn:Hal.
  - by rewrite (isalnum_not_space _ Hal), IH.
  - by rewrite isspace_space, IH.
Qed.

(** A run that [split] returns lies in the text: the first one may start
    with the run being read. *)
Lemma split_from_substring (s cur t : string) :
  t ∈ Py.split_from cur s →
  (∃ run rest, t = cur +:+ run ∧ s = run +:+ rest) ∨ substring_of t s.
Proof.
  revert cur. induction s as [|ch s IH]; intros cur; cbn [Py.split_from].
  - intros Hin. left. exists "", "".
    destruct (String.eqb cur ""); [by apply elem_of_nil in Hin|].
    apply list_elem_of_singleton in Hin as ->. by rewrite append_nil_r.
  - assert (Hrest : t ∈ Py.split_from "" s → substring_of t (String ch s)).
    { intros Hin. destruct (IH "" Hin) as [(run & rest & -> & ->)|Hsub].
      - by exists (String ch ""), rest.
      - destruct Hsub as (before & after & ->).
        by exists (String ch before), after. }
    destruct (Py.isspace ch).
    + destruct (String.eqb cur ""); [intros Hin; right; by apply Hrest|].
      intros Hin. apply elem_of_cons in Hin as [->|Hin].
      * left. exists "", (String ch s). by rewrite append_nil_r.
      * right. by apply Hrest.
    + intros Hin. destruct (IH _ Hin) as [(run & rest & -> & ->)|Hsub].
      * left. exists (String ch run), rest. by rewrite append_assoc.
      * right. destruct Hsub as (before & after & ->).
        by exists (String ch before), after.
Qed.

Lemma blank_app_inv (u a b : string) :
  blank_non_alnum u = a +:+ b →
  ∃ u1 u2, u = u1 +:+ u2 ∧ blank_non_alnum u1 = a ∧ blank_non_alnum u2 = b.
Proof.
  revert u. induction a as [|c a IH]; intros u Hu.
  - by exists "", u.
  - destruct u as [|d u]; [discriminate|].
    rewrite append_cons in Hu. cbn [blank_non_alnum] in Hu.
    injection Hu as Hc Hu.
    destruct (IH u Hu) as (u1 & u2 & -> & <- & <-).
    exists (String d u1), u2. cbn [blank_non_alnum].
    by rewrite Hc.
Qed.

Lemma blank_alnum_inv (u t : string) :
  blank_non_alnum u = t → all_chars Py.isalnum t = true → u = t.
Proof.
  revert t. induction u as [|d u IH]; intros t <-; [done|].
  cbn [blank_non_alnum all_chars]. rewrite andb_true_iff. intros [Hd Ht].
  destruct (Py.isalnum d) eqn:Hal; [|discriminate Hd].
  f_equal. by apply IH.
Qed.

Lemma blank_substring (u t : string) :
  all_chars Py.isalnum t = true →
  substring_of t (blank_non_alnum u) → substring_of t u.
Proof.
  intros Ht (before & after & Hu).
  apply blank_app_inv in Hu as (u1 & u23 & -> & _ & Hu).
  apply blank_app_inv in Hu as (u2 & u3 & -> & Hu2 & _).
  apply blank_alnum_inv in Hu2 as ->; [|done]. by exists u1, u3.
Qed.

(** Every token occurs in the lowercased text. *)
Lemma token_substring (text t : string) :
  t ∈ _tokenize text → substring_of t (Py.lower text).
Proof.
  intros Hin.
  pose proof (tokenize_tokens text) as Hall.
  rewrite Forall_forall in Hall. destruct (Hall t Hin) as (_ & Hal & _).
  rewrite tokenize_unfold in Hin. unfold Py.split in Hin.
  apply blank_substring; [done|].
  destruct (split_from_substring _ _ _ Hin) as [(run & rest & -> & ->)|?];
    [|done].
  by exists "", rest.
Qed.

Lemma split_from_sep (s1 s2 cur : string) (ch : ascii) :
  Py.isspace ch = true →
  Py.split_from cur (s1 +:+ String ch s2)
  = Py.split_from cur s1 ++ Py.split_from "" s2.
Proof.
  intros Hch. revert cur.
  induction s1 as [|d s1 IH]; intros cur.
  - change ("" +:+ String ch s2) with (String ch s2). cbn [Py.split_from].
    rewrite Hch. by destruct (String.eqb cur "").
  - rewrite append_cons. cbn [Py.split_from].
    destruct (Py.isspace d); [|apply IH].
    destruct (String.eqb cur ""); [apply IH|]. by rewrite IH.
Qed.

Lemma split_from_run (s cur : string) :
  all_chars (λ ch, negb (Py.isspace ch)) s = true →
  Py.split_from cur s
  = if String.eqb (cur +:+ s) "" then [] else [cur +:+ s].
Proof.
  revert cur. induction s as [|ch s IH]; intros cur;
    cbn [all_chars Py.split_from].
  - by rewrite append_nil_r.
  - rewrite andb_true_iff, negb_true_iff. intros [-> Hs].
    rewrite IH, append_assoc by done. done.
Qed.

Lemma blank_alnum (t : string) :
  all_chars Py.isalnum t = true → blank_non_alnum t = t.
Proof.
  induction t as [|ch t IH]; [done|]. cbn [all_chars blank_non_alnum].
  rewrite andb_true_iff. intros [-> Ht]. by rewrite IH.
Qed.

Lemma all_chars_lower_alnum (t : string) :
  all_chars Py.isalnum (Py.lower t) = all_chars Py.isalnum t.
Proof.
  induction t as [|ch t IH]; [done|]. cbn [Py.lower all_chars].
  by rewrite isalnum_lower_char, IH.
Qed.

Lemma all_chars_impl (p q : ascii → bool) (s : string) :
  (∀ ch, p ch = true → q ch = true) →
  all_chars p s = true → all_chars q s = true.
Proof.
  intros Hpq. induction s as [|ch s IH]; [done|]. cbn [all_chars].
  rewrite !andb_true_iff. intros [Hch Hs]. split; [by apply Hpq | by apply IH].
Qed.

(** A word of alphanumeric characters is one token: itself in lower case. *)
Lemma tokenize_word (t : string) :
  t ≠ "" → all_chars Py.isalnum t = true → _tokenize t = [Py.lower t].
Proof.
  intros Hne Hal. rewrite tokenize_unfold. unfold Py.split.
  rewrite blank_alnum by (by rewrite all_chars_lower_alnum).
  rewrite split_from_run.
  - change ("" +:+ Py.lower t) with (Py.lower t).
    destruct (String.eqb_spec (Py.lower t) "") as [H|H]; [|done].
    by destruct t.
  - eapply all_chars_impl; [|by rewrite all_chars_lower_alnum].
    intros ch Hch. by rewrite (isalnum_not_space _ Hch).
Qed.

Lemma join_all_nil_inv (l : list string) :
  Forall (λ t, t ≠ "") l → join_all l = "" → l = [].
Proof.
  intros Hl. destruct l as [|t l]; [done|].
  apply Forall_cons in Hl as [Ht _]. cbn [join_all foldr].
  destruct t; [done | discriminate].
Qed.

Lemma keep_chars_nil_iff (p : ascii → bool) (s : string) :
  keep_chars p s = "" ↔ all_chars (λ ch, negb (p ch)) s = true.
Proof.
  induction s as [|ch s IH]; [done|]. cbn [keep_chars all_chars].
  destruct (p ch); cbn [negb andb]; [split; discriminate | done].
Qed.

Lemma tokenize_join (text : string) :
  join_all (_tokenize text) = keep_chars Py.isalnum (Py.lower text).
Proof.
  rewrite tokenize_unfold. unfold Py.split.
  by rewrite split_from_join, keep_blank.
Qed.

End TokenizerShape.

(** X1. The tokens, joined, are the alphanumeric characters of the
    lowercased text in their order: no alphanumeric character is lost or
    added.  A text has no token exactly when it has no alphanumeric
    character. *)
Theorem tokenize_keeps_alphanumerics (text : string) :
  join_all (_tokenize text) = keep_chars Py.isalnum (Py.lower text)
  ∧ (_tokenize text = []
     ↔ all_chars (λ ch, negb (Py.isalnum ch)) text = true).
Proof.
  split; [apply tokenize_join|].
  assert (Hlow : all_chars (λ ch, negb (Py.isalnum ch)) (Py.lower text)
                 = all_chars (λ ch, negb (Py.isalnum ch)) text).
  { induction text as [|ch text IH]; [done|]. cbn [Py.lower all_chars].
    by rewrite isalnum_lower_char, IH. }
  rewrite <- Hlow, <- keep_chars_nil_iff, <- tokenize_join. split.
  - by intros ->.
  - apply join_all_nil_inv. eapply Forall_impl; [apply tokenize_tokens|].
    by intros t [? _].
Qed.

(** X2. Every token occurs as a substring of the lowercased text. *)
Theorem tokens_occur_in_text (text : string) :
  Forall (λ t, substring_of t (Py.lower text)) (_tokenize text).
Proof. apply Forall_forall. intros t. apply token_substring. Qed.




(** X4. Tokenizing a token gives that token alone, and the tokens of a text
    and of its lowercased form are the same. *)
Theorem tokenize_idempotent (text : string) :
  Forall (λ t, _tokenize t = [t]) (_tokenize text)
  ∧ _tokenize (Py.lower text) = _tokenize text.
Proof.
  split.
  - eapply Forall_impl; [apply tokenize_tokens|].
    intros t (Hne & Hal & Hlow). rewrite <- Hlow at 2.
    by apply tokenize_word.
  - rewrite !tokenize_unfold. by rewrite lower_idem.
Qed.

(* ===================================================================== *)
(** * Further properties of the matcher *)
(* ===================================================================== *)

Section MatcherMore.

Lemma tokenize_lower (text : string) :
  _tokenize (Py.lower text) = _tokenize text.
Proof. rewrite !tokenize_unfold. by rewrite lower_idem. Qed.

Lemma score_pos_substring (query : string) (rec : FileRecord) :
  (0 < score query rec)%nat →
  ∃ t, t ∈ _tokenize query ∧ substring_of t (Py.lower (name rec)).
Proof.
  intros Hpos. destruct (score_pos_token _ _ Hpos) as (t & Ht & [Hn|Hs]);
    exists t; (split; [done|]); [by apply token_substring | done].
Qed.

Lemma substring_score_pos (query t : string) (rec : FileRecord) :
  t ∈ _tokenize query → substring_of t (Py.lower (name rec)) →
  (0 < score query rec)%nat.
Proof.
  intros Ht Hs. unfold score.
  destruct (overlap_of_cases (query_tokens query) rec) as (H1 & H2 & _).
  destruct (decide (size (query_tokens query
                          ∩ list_to_set (_tokenize (name rec))) = 0%nat))
    as [Hz|Hnz].
  - rewrite H2; [lia | done |]. exists t. split; [|done].
    by apply elem_of_list_to_set.
  - rewrite H1 by done. lia.
Qed.

(** The result depends on the query through its set of tokens only. *)
Lemma search_files_tokens (q1 q2 : string) (records : list FileRecord) (k : Z) :
  query_tokens q1 = query_tokens q2 →
  search_files q1 records k = search_files q2 records k.
Proof.
  intros H. rewrite !search_files_unfold.
  unfold survivors, record_leb, score. by rewrite H.
Qed.

Lemma ties_filter_perm (query : string) (c : FileRecord)
    (l1 l2 : list FileRecord) :
  l1 ≡ₚ l2 → NoDup (name <$> l1) →
  filter (ties_with query c) l1 = filter (ties_with query c) l2.
Proof.
  intros Hperm Hnd.
  assert (Hf : filter (ties_with query c) l1 ≡ₚ filter (ties_with query c) l2)
    by (by rewrite Hperm).
  assert (Hnames : NoDup (name <$> filter (ties_with query c) l1)).
  { apply (sublist_NoDup _ (name <$> l1)); try exact Hnd.
    apply fmap_sublist, sublist_filter. }
  destruct (filter (ties_with query c) l1) as [|x [|y f1]] eqn:Hf1.
  - by apply Permutation_nil in Hf.
  - by apply Permutation_singleton_l in Hf.
  - exfalso.
    assert (Hx : x ∈ filter (ties_with query c) l1) by (rewrite Hf1; left).
    assert (Hy : y ∈ filter (ties_with query c) l1)
      by (rewrite Hf1; right; left).
    apply list_elem_of_filter in Hx as [[_ Hx] _].
    apply list_elem_of_filter in Hy as [[_ Hy] _].
    cbn [fmap list_fmap] in Hnames.
    apply NoDup_cons in Hnames as [Hnotin _]. apply Hnotin.
    rewrite <- Hx, Hy. left.
Qed.

Lemma ranked_perm_invariant (query : string) (l1 l2 : list FileRecord) :
  l1 ≡ₚ l2 → NoDup (name <$> l1) →
  Py.sorted (record_leb query) (survivors query l1)
  = Py.sorted (record_leb query) (survivors query l2).
Proof.
  intros Hperm Hnd.
  destruct (ranking_facts query l1) as (Hp1 & Hs1 & Ht1).
  destruct (ranking_facts query l2) as (Hp2 & Hs2 & Ht2).
  assert (Hsurv : survivors query l1 ≡ₚ survivors query l2)
    by (unfold survivors; by rewrite Hperm).
  apply (stable_sorted_unique (ranks_before query) (ties_with query));
    [by split | apply ranks_before_both | | done | done |].
  - by rewrite Hp1, Hp2.
  - intros c. rewrite Ht1, Ht2. apply ties_filter_perm; [done|].
    apply (sublist_NoDup _ (name <$> l1)); try exact Hnd.
    apply fmap_sublist, sublist_filter.
Qed.

Lemma slice_to_submseteq {A} (k : Z) (l : list A) : Py.slice_to k l ⊆+ l.
Proof. unfold Py.slice_to. destruct (0 <=? k); apply submseteq_take. Qed.

Lemma search_files_submseteq (query : string) (records : list FileRecord)
    (k : Z) :
  search_files query records k ⊆+ records.
Proof.
  rewrite search_files_unfold.
  etrans; [apply slice_to_submseteq|]. rewrite sorted_perm.
  apply sublist_submseteq, sublist_filter.
Qed.

Lemma substring_of_wider (t pre a post : string) :
  substring_of t a → substring_of t (pre +:+ a +:+ post).
Proof.
  intros (before & after & ->). exists (pre +:+ before), (after +:+ post).
  by rewrite !append_assoc.
Qed.

Lemma looks_like_search_keyword (text : string) :
  looks_like_search text = true →
  ∃ k, k ∈ SEARCH_TRIGGER_KEYWORDS ∧ substring_of k (Py.lower text).
Proof.
  unfold looks_like_search. rewrite existsb_elements.
  intros (k & Hk & H). exists k. split; [done|].
  apply orb_true_iff in H as [H|H].
  - apply bool_decide_eq_true in H. apply elem_of_list_to_set in H.
    by apply token_substring.
  - by apply contains_true_iff.
Qed.

Lemma keyword_looks_like_search (text k : string) :
  k ∈ SEARCH_TRIGGER_KEYWORDS → substring_of k (Py.lower text) →
  looks_like_search text = true.
Proof.
  intros Hk Hs. unfold looks_like_search. apply existsb_elements.
  exists k. split; [done|]. apply orb_true_iff. right.
  by apply contains_true_iff.
Qed.

End MatcherMore.

(** X5. A record scores positively exactly when some token of the query
    occurs as a substring of its lowercased name: a shared token is such a
    substring, so the substring test alone decides which records match. *)
Theorem score_positive_iff_substring (query : string) (rec : FileRecord) :
  (0 < score query rec)%nat
  ↔ ∃ t, t ∈ _tokenize query ∧ substring_of t (Py.lower (name rec)).
Proof.
  split; [apply score_pos_substring|].
  intros (t & Ht & Hs). by apply (substring_score_pos query t).
Qed.

(** X6. A score is at most the number of distinct tokens of the query, and at
    most the number of distinct tokens of the name or 1, whichever is
    larger. *)
Theorem score_bounds (query : string) (rec : FileRecord) :
  (score query rec ≤ size (list_to_set (_tokenize query) : gset string))%nat
  ∧ (score query rec
     ≤ Nat.max 1 (size (list_to_set (_tokenize (name rec)) : gset string)))%nat.
Proof.
  unfold score, query_tokens.
  generalize (list_to_set (_tokenize query) : gset string). intros Q.
  unfold overlap_of. cbv zeta.
  set (N := list_to_set (_tokenize (name rec)) : gset string).
  assert (HQ : (size (Q ∩ N) ≤ size Q)%nat)
    by (apply subseteq_size, intersection_subseteq_l).
  assert (HN : (size (Q ∩ N) ≤ size N)%nat)
    by (apply subseteq_size, intersection_subseteq_r).
  destruct (Nat.eqb_spec (size (Q ∩ N)) 0) as [Hz|Hnz]; cbn [andb]; [|lia].
  destruct (existsb _ (elements Q)) eqn:Hex; [|lia].
  apply existsb_elements in Hex as (t & Ht & _).
  assert (size Q ≠ 0%nat); [|lia].
  apply size_non_empty_iff. intros Hempty. by apply Hempty in Ht.
Qed.

(** X7. The result depends on the query only through its set of tokens:
    queries with the same tokens give the same result, so the case of the
    query and the order of its words do not matter. *)
Theorem search_files_query_invariance (query : string)
    (records : list FileRecord) (k : Z) :
  (∀ query', list_to_set (_tokenize query') =@{gset string}
               list_to_set (_tokenize query) →
             search_files query' records k = search_files query records k)
  ∧ search_files (Py.lower query) records k = search_files query records k
  ∧ (∀ a b, search_files (a +:+ " " +:+ b) records k
            = search_files (b +:+ " " +:+ a) records k).
Proof.
  split; [intros query' H; by apply search_files_tokens|].
  split.
  - apply search_files_tokens. unfold query_tokens. by rewrite tokenize_lower.
  - intros a b. apply search_files_tokens. unfold query_tokens.
    assert (Hsep : ∀ x y, _tokenize (x +:+ " " +:+ y)
                          = _tokenize x ++ _tokenize y).
    { intros x y. rewrite !tokenize_unfold. unfold Py.split.
      rewrite lower_app, blank_app.
      change (blank_non_alnum (Py.lower (" " +:+ y)))
        with (String " " (blank_non_alnum (Py.lower y))).
      by apply split_from_sep. }
    rewrite !Hsep, !list_to_set_app_L. apply (comm_L (∪)).
Qed.

(** X8. A negative cap drops that many records from the end of the full
    ranking; nothing is left when it drops as many as there are. *)
Theorem search_files_negative_cap (query : string)
    (records : list FileRecord) (k : Z) :
  k < 0 →
  let ranked := search_files query records (Z.of_nat (length records)) in
  search_files query records k
  = take (length ranked - Z.to_nat (- k)) ranked
  ∧ length (search_files query records k)
    = (length ranked - Z.to_nat (- k))%nat.
Proof.
  intros Hk ranked. subst ranked.
  rewrite search_files_full, search_files_unfold. unfold Py.slice_to.
  destruct (Z.leb_spec 0 k); [lia|]. split; [done|].
  rewrite length_take. lia.
Qed.

Lemma search_files_negative_cap_witness :
  let records :=
    [named "report.csv"; named "invoice_draft.txt"; named "Invoice_2023.pdf"] in
  -1 < 0
  ∧ length (search_files "invoice report" records (-1)) = 2%nat.
Proof.
  intros records. split; [lia|].
  exact (proj2 (search_files_negative_cap "invoice report" records (-1)
                  eq_refl)).
Defined.

(** X9. A smaller cap gives a prefix of what a larger cap gives. *)
Theorem search_files_cap_prefix (query : string) (records : list FileRecord)
    (k k' : Z) :
  0 ≤ k → k ≤ k' →
  search_files query records k
  = take (Z.to_nat k) (search_files query records k').
Proof.
  intros Hk Hk'. rewrite !search_files_unfold, !slice_to_pos by lia.
  rewrite take_take. f_equal. lia.
Qed.

Lemma search_files_cap_prefix_witness :
  let records :=
    [named "report.csv"; named "invoice_draft.txt"; named "Invoice_2023.pdf"] in
  0 ≤ 1 ∧ 1 ≤ 5
  ∧ search_files "invoice" records 1
    = take 1 (search_files "invoice" records 5).
Proof.
  intros records. split; [lia|]. split; [lia|].
  apply (search_files_cap_prefix "invoice" records 1 5); lia.
Defined.

(** X10. When no two records have the same name, the result does not depend
    on the order in which the records are given. *)
Theorem search_files_order_independent (query : string)
    (records records' : list FileRecord) (k : Z) :
  records ≡ₚ records' →
  NoDup (map name records) →
  search_files query records k = search_files query records' k.
Proof.
  intros Hperm Hnd. rewrite !search_files_unfold.
  by rewrite (ranked_perm_invariant query records records').
Qed.

Lemma search_files_order_independent_witness :
  let records :=
    [named "report.csv"; named "invoice_draft.txt"; named "Invoice_2023.pdf"] in
  search_files "invoice" records 5 = search_files "invoice" (reverse records) 5.
Proof.
  intros records.
  apply (search_files_order_independent "invoice" records (reverse records) 5).
  - symmetry. apply reverse_Permutation.
  - apply (bool_decide_unpack (NoDup (map name records))). vm_compute. exact I.
Defined.

(** X11. The result is taken from the records given: no record is returned
    more often than it occurs in the input, and a result from records
    without repetition has no repetition. *)
Theorem search_files_from_input (query : string) (records : list FileRecord)
    (k : Z) :
  search_files query records k ⊆+ records
  ∧ (length (search_files query records k) ≤ length records)%nat
  ∧ (NoDup records → NoDup (search_files query records k)).
Proof.
  pose proof (search_files_submseteq query records k) as Hsub.
  split; [done|]. split; [by apply submseteq_length|].
  intros Hnd. apply submseteq_sublist_l in Hsub as (l & Hl & Hperm).
  rewrite <- Hperm in Hnd. by apply (sublist_NoDup _ l).
Qed.

(** X12. [looks_like_search] holds exactly when a trigger keyword occurs in
    the lowercased text: a keyword that is a token is such an occurrence, so
    the token test never changes the answer. *)
Theorem looks_like_search_iff_substring (text : string) :
  looks_like_search text = true
  ↔ ∃ k, k ∈ SEARCH_TRIGGER_KEYWORDS ∧ substring_of k (Py.lower text).
Proof.
  split; [apply looks_like_search_keyword|].
  intros (k & Hk & Hs). by apply (keyword_looks_like_search text k).
Qed.

(** X13. Text around a text that looks like a search does not change that,
    and neither does the case of the letters. *)
Theorem looks_like_search_monotone (before text after : string) :
  looks_like_search text = true →
  looks_like_search (before +:+ text +:+ after) = true
  ∧ looks_like_search (Py.lower text) = true.
Proof.
  intros H. apply looks_like_search_keyword in H as (k & Hk & Hs).
  split; apply (keyword_looks_like_search _ k); try done.
  - rewrite !lower_app. by apply substring_of_wider.
  - by rewrite lower_idem.
Qed.

Lemma looks_like_search_monotone_witness :
  looks_like_search "SHOW" = true
  ∧ looks_like_search "please SHOW me" = true.
Proof.
  split; [reflexivity|].
  exact (proj1 (looks_like_search_monotone "please " "SHOW" " me" eq_refl)).
Defined.

(* ===================================================================== *)
(** * Further properties of the scanner *)
(* ===================================================================== *)

Section ScannerMore.

Lemma and_then_true (a b : exn + bool) :
  and_then a b = inr true → a = inr true ∧ b = inr true.
Proof. unfold and_then, bind. by destruct a as [?|[|]]. Qed.

(** A scan that returns gives the records of its traversal, or nothing when
    the root is not a directory. *)
Lemma scan_cases (fs : filesystem) (root : option Path)
    (records : list FileRecord) :
  scan_dummy_data fs root = inr records →
  ∃ root_path,
    root_path_of fs root = inr root_path
    ∧ ((is_dir fs root_path = inr true
        ∧ records = omap (listed fs) (traversal fs root_path))
       ∨ records = []).
Proof.
  intros Hscan.
  destruct (root_path_of fs root) as [e|root_path] eqn:Hroot.
  { unfold scan_dummy_data in Hscan. fold (root_path_of fs root) in Hscan.
    by rewrite Hroot in Hscan. }
  exists root_path. split; [done|].
  destruct (and_then (exists_ fs root_path) (is_dir fs root_path))
    as [e|[|]] eqn:Hd.
  - unfold scan_dummy_data in Hscan. fold (root_path_of fs root) in Hscan.
    rewrite Hroot in Hscan. cbn [bind] in Hscan. by rewrite Hd in Hscan.
  - apply and_then_true in Hd as [_ Hdir]. left. split; [done|].
    by destruct (scan_listing fs root root_path records Hroot Hdir Hscan).
  - unfold scan_dummy_data in Hscan. fold (root_path_of fs root) in Hscan.
    rewrite Hroot in Hscan. cbn [bind] in Hscan. rewrite Hd in Hscan.
    cbn [bind] in Hscan. right. by injection Hscan as <-.
Qed.

(** Every record of a scan that returns is the record that the turn for an
    entry below the root added. *)
Lemma scan_records (fs : filesystem) (root : option Path)
    (records : list FileRecord) (rec : FileRecord) :
  scan_dummy_data fs root = inr records →
  rec ∈ records →
  ∃ root_path p, root_path_of fs root = inr root_path
                 ∧ reachable fs root_path p ∧ recorded fs p rec.
Proof.
  intros Hscan Hin.
  destruct (scan_cases fs root records Hscan)
    as (root_path & Hroot & [[Hdir ->]| ->]).
  - apply list_elem_of_omap in Hin as (p & Hp & Hrec).
    exists root_path, p. split; [done|].
    split; [by apply elem_of_traversal | by apply listed_Some].
  - by apply elem_of_nil in Hin.
Qed.

Lemma length_append (a b : string) :
  String.length (a +:+ b) = (String.length a + String.length b)%nat.
Proof.
  induction a as [|c a IH]; [done|]. rewrite append_cons.
  cbn [String.length]. by rewrite IH.
Qed.

Lemma substring_all (t : string) : String.substring 0 (String.length t) t = t.
Proof. induction t as [|c t IH]; [done|]. simpl. by rewrite IH. Qed.

Lemma substring_skip (stem t : string) (m : nat) :
  String.substring (String.length stem) m (stem +:+ t) = String.substring 0 m t.
Proof.
  induction stem as [|c stem IH]; [done|]. rewrite append_cons. simpl.
  apply IH.
Qed.

(** The last dot cuts the name into a stem and a tail without dots. *)
Lemma rfind_dot_split (s : string) (i : nat) :
  rfind_dot s = Some i →
  ∃ stem tail, s = stem +:+ String "." tail ∧ String.length stem = i
               ∧ rfind_dot tail = None.
Proof.
  revert i. induction s as [|ch s IH]; intros i; [discriminate|].
  cbn [rfind_dot]. destruct (rfind_dot s) as [j|] eqn:Hj.
  - intros [= <-]. destruct (IH j eq_refl) as (stem & tail & -> & <- & Ht).
    by exists (String ch stem), tail.
  - destruct (Ascii.eqb_spec ch ".") as [->|]; [|discriminate].
    intros [= <-]. by exists "", s.
Qed.

Lemma rfind_dot_none (s : string) :
  rfind_dot s = None → all_chars (λ ch, negb (Ascii.eqb ch ".")) s = true.
Proof.
  induction s as [|ch s IH]; [done|]. cbn [rfind_dot all_chars].
  destruct (rfind_dot s); [discriminate|].
  destruct (Ascii.eqb ch "."); [discriminate|]. intros _. by apply IH.
Qed.

(** [entry.suffix] is empty, or it is the last dot of the name and what
    follows it, with something before and something after that dot. *)
Lemma suffix_shape (p : Path) :
  suffix p = ""
  ∨ ∃ stem tail, stem ≠ "" ∧ tail ≠ ""
       ∧ path_name p = stem +:+ String "." tail
       ∧ suffix p = String "." tail
       ∧ all_chars (λ ch, negb (Ascii.eqb ch ".")) tail = true.
Proof.
  unfold suffix. destruct (rfind_dot (path_name p)) as [i|] eqn:Hi; [|by left].
  destruct (rfind_dot_split _ _ Hi) as (stem & tail & Hname & <- & Htail).
  rewrite Hname, length_append. cbn [String.length].
  destruct ((0 <? String.length stem)%nat
            && (String.length stem
                <? String.length stem + S (String.length tail) - 1)%nat)
    eqn:Hcond; [|by left].
  apply andb_true_iff in Hcond as [H1 H2].
  apply Nat.ltb_lt in H1, H2. right. exists stem, tail.
  split; [by destruct stem; simpl in H1; [lia|]|].
  split; [destruct tail; simpl in H2; [lia | done]|].
  split; [done|]. split; [|by apply rfind_dot_none].
  rewrite substring_skip.
  replace (String.length stem + S (String.length tail) - String.length stem)%nat
    with (String.length (String "." tail)) by (simpl; lia).
  apply substring_all.
Qed.

Lemma lower_char_dot (ch : ascii) :
  Ascii.eqb (Py.lower_char ch) "." = Ascii.eqb ch ".".
Proof. destruct ch as [[] [] [] [] [] [] [] []]; reflexivity. Qed.

Lemma lower_no_dot (tail : string) :
  all_chars (λ ch, negb (Ascii.eqb ch ".")) (Py.lower tail)
  = all_chars (λ ch, negb (Ascii.eqb ch ".")) tail.
Proof.
  induction tail as [|ch tail IH]; [done|]. cbn [Py.lower all_chars].
  by rewrite lower_char_dot, IH.
Qed.





End ScannerMore.

(** X15. In every record of a scan that returns, the extension is in lower
    case, and it is either empty or the lowercased end of the name from its
    last dot on, with at least one character before that dot and at least
    one after it. *)
Theorem scan_record_extension (fs : filesystem) (root : option Path)
    (records : list FileRecord) :
  scan_dummy_data fs root = inr records →
  Forall (λ rec,
    Py.lower (ext rec) = ext rec
    ∧ (ext rec = ""
       ∨ ∃ stem tail, stem ≠ "" ∧ tail ≠ ""
            ∧ name rec = stem +:+ String "." tail
            ∧ ext rec = Py.lower (String "." tail)
            ∧ all_chars (λ ch, negb (Ascii.eqb ch ".")) tail = true))
    records.
Proof.
  intros Hscan. apply Forall_forall. intros rec Hin.
  destruct (scan_records _ _ _ _ Hscan Hin) as (rp & p & _ & _ & Hrec).
  apply recorded_iff in Hrec as (st & iso & _ & _ & ->).
  cbn [ext name]. split; [apply lower_idem|].
  destruct (suffix_shape p) as [->|(stem & tail & Hs & Ht & Hname & -> & Hdot)];
    [by left|].
  right. by exists stem, tail.
Qed.

Lemma scan_record_extension_witness :
  ∃ records,
    scan_dummy_data sample_fs None = inr records
    ∧ Forall (λ rec, Py.lower (ext rec) = ext rec) records.
Proof.
  eexists. split; [reflexivity|].
  eapply Forall_impl;
    [exact (scan_record_extension sample_fs None _ eq_refl)|].
  by intros rec [? _].
Defined.



Section Paths.

Lemma path_str_head (p : Path) :
  path_str p = "" ∨ ∃ s, path_str p = String "/" s.
Proof. destruct p as [|x p]; [by left|]. right. by eexists. Qed.

(** A name without separator ends where the next separator stands. *)
Lemma slash_free_cut (x y r r' : string) :
  slash_free x → slash_free y →
  (r = "" ∨ ∃ s, r = String "/" s) → (r' = "" ∨ ∃ s, r' = String "/" s) →
  x +:+ r = y +:+ r' → x = y ∧ r = r'.
Proof.
  unfold slash_free. revert y.
  induction x as [|c x IH]; intros [|d y] Hx Hy Hr Hr' Heq.
  - done.
  - exfalso. change ("" +:+ r) with r in Heq. rewrite append_cons in Heq.
    cbn [all_chars] in Hy. apply andb_true_iff in Hy as [Hd _].
    destruct Hr as [->|[s ->]]; [discriminate|].
    injection Heq as <- _. discriminate Hd.
  - exfalso. change ("" +:+ r') with r' in Heq. rewrite append_cons in Heq.
    cbn [all_chars] in Hx. apply andb_true_iff in Hx as [Hc _].
    destruct Hr' as [->|[s ->]]; [discriminate|].
    injection Heq as -> _. discriminate Hc.
  - rewrite !append_cons in Heq. injection Heq as -> Heq.
    cbn [all_chars] in Hx, Hy.
    apply andb_true_iff in Hx as [_ Hx]. apply andb_true_iff in Hy as [_ Hy].
    destruct (IH y Hx Hy Hr Hr' Heq) as [-> ->]. done.
Qed.

Lemma path_str_inj (p q : Path) :
  Forall slash_free p → Forall slash_free q →
  path_str p = path_str q → p = q.
Proof.
  revert q. induction p as [|x p IH]; intros [|y q] Hp Hq Heq; try done.
  apply Forall_cons in Hp as [Hx Hp]. apply Forall_cons in Hq as [Hy Hq].
  cbn [path_str] in Heq. rewrite !append_cons in Heq. injection Heq as Heq.
  change ("" +:+ x +:+ path_str p = "" +:+ y +:+ path_str q) in Heq.
  change ("" +:+ x +:+ path_str p) with (x +:+ path_str p) in Heq.
  change ("" +:+ y +:+ path_str q) with (y +:+ path_str q) in Heq.
  apply slash_free_cut in Heq as [-> Heq];
    [|done|done|apply path_str_head|apply path_str_head].
  f_equal. by apply IH.
Qed.

Lemma resolve_str_inj (p q : Path) :
  p ≠ [] → q ≠ [] → Forall slash_free p → Forall slash_free q →
  resolve_str p = resolve_str q → p = q.
Proof.
  intros Hp Hq. destruct p as [|x p], q as [|y q]; try done.
  apply path_str_inj.
Qed.

Lemma records_paths_NoDup (fs : filesystem) (entries : list Path) :
  realpath fs = ∅ →
  NoDup entries →
  Forall (λ p, p ≠ [] ∧ Forall slash_free p) entries →
  NoDup (map path (omap (listed fs) entries)).
Proof.
  intros Hlinks Hnd Hall. induction entries as [|p entries IH]; [constructor|].
  apply NoDup_cons in Hnd as [Hnotin Hnd].
  apply Forall_cons in Hall as [[Hp Hsf] Hall].
  cbn [omap list_omap].
  destruct (listed fs p) as [rec|] eqn:Hrec; [|by apply IH].
  cbn [map]. apply NoDup_cons. split; [|by apply IH].
  intros Hin. apply (list_elem_of_fmap path) in Hin as (rec' & Heq & Hin).
  apply list_elem_of_omap in Hin as (p' & Hp' & Hrec').
  rewrite Forall_forall in Hall. destruct (Hall p' Hp') as [Hne' Hsf'].
  assert (Hpath : ∀ e r, listed fs e = Some r → path r = resolve_str e).
  { intros e r Hr. apply listed_Some, recorded_iff in Hr
      as (st & iso & _ & _ & ->).
    cbn [path]. unfold resolve. by rewrite Hlinks, lookup_empty. }
  rewrite (Hpath _ _ Hrec), (Hpath _ _ Hrec') in Heq.
  apply resolve_str_inj in Heq; try done. by subst p'.
Qed.

End Paths.

(** X17. In a tree without links whose names hold no separator, no two
    records of a scan that returns have the same path: the path is a key of
    the scan. *)
Theorem scan_paths_unique (fs : filesystem) (root : option Path)
    (records : list FileRecord) :
  plain_names fs →
  realpath fs = ∅ →
  scan_dummy_data fs root = inr records →
  NoDup (map path records).
Proof.
  intros Hplain Hlinks Hscan.
  destruct (scan_cases fs root records Hscan)
    as (root_path & Hroot & [[Hdir ->]| ->]); [|constructor].
  apply records_paths_NoDup; [done| |].
  - unfold traversal. rewrite sorted_perm. apply NoDup_entries_below.
  - apply Forall_forall. intros p Hp.
    apply elem_of_traversal in Hp as (rest & -> & Hne & [x Hx] & _).
    split; [by destruct root_path, rest|].
    by apply (Hplain _ x).
Qed.

Lemma scan_paths_unique_witness :
  plain_names sample_fs
  ∧ realpath sample_fs = ∅
  ∧ ∃ records, scan_dummy_data sample_fs None = inr records
               ∧ NoDup (map path records).
Proof.
  assert (H : plain_names sample_fs).
  { apply (bool_decide_unpack (plain_names sample_fs)). vm_compute. exact I. }
  split; [exact H|]. split; [reflexivity|]. eexists. split; [reflexivity|].
  exact (scan_paths_unique sample_fs None _ H eq_refl eq_refl).
Defined.

Section Subtree.


Context (fs1 fs2 : filesystem) (root : Path).
Hypothesis same_nodes :
  ∀ p : Path, root `prefix_of` p → nodes fs1 !! p = nodes fs2 !! p.
Hypothesis same_links :
  ∀ p : Path, root `prefix_of` p → p ∈ symlinks fs1 ↔ p ∈ symlinks fs2.
Hypothesis same_realpath :
  ∀ p : Path, root `prefix_of` p → realpath fs1 !! p = realpath fs2 !! p.
Hypothesis same_zone : ∀ t, local_iso fs1 t = local_iso fs2 t.




End Subtree.



(** X19. What the application shows for a prompt, when the scan of
    [sample_data] in the working directory returns: at most five records,
    each added by the turn for an entry below [sample_data] and named after
    that entry, whose lowercased name holds a token of the prompt; nothing
    when [sample_data] is found not to be a directory; and, when the scan
    holds at most five records, every record of the scan whose lowercased
    name holds a token of the prompt.  When the scan raises, so does the
    application. *)
Theorem related_documents_sound (fs : filesystem) (prompt : string) :
  let root := cwd fs ++ ["sample_data"] in
  (∀ results,
     related_documents fs prompt = inr results →
     (length results ≤ 5)%nat
     ∧ Forall (λ rec,
         ∃ p, reachable fs root p
              ∧ recorded fs p rec
              ∧ name rec = path_name p
              ∧ ∃ t, t ∈ _tokenize prompt
                     ∧ substring_of t (Py.lower (path_name p)))
         results)
  ∧ (is_dir fs root = inr false → related_documents fs prompt = inr [])
  ∧ (∀ records rec t,
       session_records fs = inr records →
       (length records ≤ 5)%nat →
       rec ∈ records →
       t ∈ _tokenize prompt → substring_of t (Py.lower (name rec)) →
       ∃ results, related_documents fs prompt = inr results ∧ rec ∈ results)
  ∧ (∀ e, session_records fs = inl e → related_documents fs prompt = inl e).
Proof.
  intros root. unfold related_documents.
  split; [|split; [|split]].
  - intros results Hres.
    destruct (session_records fs) as [e|records] eqn:Hscan; [done|].
    cbn [bind] in Hres. injection Hres as <-. split.
    + rewrite search_files_unfold, slice_to_pos by lia.
      rewrite length_take. lia.
    + apply Forall_forall. intros rec Hin. rewrite search_files_unfold in Hin.
      apply slice_to_subseteq in Hin. rewrite sorted_perm in Hin.
      apply list_elem_of_filter in Hin as [Hpos Hin].
      unfold session_records in Hscan.
      destruct (scan_records fs _ _ _ Hscan Hin)
        as (rp & p & [= <-] & Hr & Hrec).
      exists p. split; [done|]. split; [done|].
      assert (Hname : name rec = path_name p).
      { apply recorded_iff in Hrec as (st & iso & _ & _ & ->). done. }
      split; [done|]. rewrite <- Hname. by apply score_pos_substring.
  - intros Hdir. unfold session_records, scan_dummy_data. cbn [bind].
    fold root. unfold and_then. rewrite Hdir.
    destruct (exists_ fs root) as [e|[|]] eqn:Hex; cbn [bind].
    + unfold exists_, is_dir in *. repeat case_match; simplify_eq.
    + by rewrite search_files_unfold.
    + by rewrite search_files_unfold.
  - intros records rec t Hscan Hlen Hin Ht Hsub. rewrite Hscan. cbn [bind].
    eexists. split; [done|].
    rewrite search_files_unfold, slice_to_ge.
    + rewrite sorted_perm. apply list_elem_of_filter.
      split; [by apply (substring_score_pos prompt t) | done].
    + rewrite sorted_length. pose proof (survivors_length prompt records). lia.
  - intros e He. by rewrite He.
Qed.

Lemma related_documents_sound_witness :
  ∃ results,
    related_documents sample_fs "the A txt file" = inr results
    ∧ (length results ≤ 5)%nat.
Proof.
  eexists. split; [reflexivity|].
  exact (proj1 (proj1 (related_documents_sound sample_fs "the A txt file")
                  _ eq_refl)).
Defined.


(** X20. The icon of an extension does not depend on the case of its
    letters.  The MIME type is a specific one exactly for the extensions
    that have an icon entry, all of them in lower case, so an extension with
    an upper-case letter gets the general type. *)
Theorem extension_tables (ext : string) :
  _icon_for_ext (Py.lower ext) = _icon_for_ext ext
  ∧ (_guess_mime ext ≠ "application/octet-stream"
     ↔ is_Some (mime_types !! ext))
  ∧ (is_Some (mime_types !! ext) ↔ is_Some (icon_mapping !! ext))
  ∧ (is_Some (mime_types !! ext) → Py.lower ext = ext)
  ∧ (Py.lower ext ≠ ext → _guess_mime ext = "application/octet-stream").
Proof.
  assert (Hvals : map_Forall (λ _ v, v ≠ "application/octet-stream") mime_types).
  { apply (bool_decide_unpack _). vm_compute. exact I. }
  assert (Hkeys : map_Forall (λ k _, Py.lower k = k) mime_types).
  { apply (bool_decide_unpack _). vm_compute. exact I. }
  assert (Hdom : dom mime_types = dom icon_mapping).
  { apply (bool_decide_unpack _). vm_compute. exact I. }
  split; [unfold _icon_for_ext; by rewrite lower_idem|].
  split; [|split; [|split]].
  - unfold _guess_mime. destruct (mime_types !! ext) as [v|] eqn:Hv; simpl.
    + split; [by eauto | intros _; by apply (Hvals ext)].
    + split; [done | by intros [? ?]].
  - by rewrite <- !elem_of_dom, Hdom.
  - intros [v Hv]. by apply (Hkeys ext v).
  - intros Hne. unfold _guess_mime.
    destruct (mime_types !! ext) as [v|] eqn:Hv; [|done].
    destruct Hne. by apply (Hkeys ext v).
Qed.

Section Ranking.

Lemma slice_to_take {A} (k : Z) (l : list A) :
  ∃ n, Py.slice_to k l = take n l.
Proof. unfold Py.slice_to. destruct (0 <=? k); by eexists. Qed.

Lemma sorted_fixed {A} (leb : A → A → bool) (l : list A) :
  StronglySorted (λ a b, leb a b = true) l → Py.sorted leb l = l.
Proof.
  induction 1 as [|x l Hl IH Hx]; [done|]. cbn [Py.sorted]. rewrite IH.
  destruct l as [|y l]; [done|]. cbn [Py.insert_sorted].
  apply Forall_cons in Hx as [-> _]. done.
Qed.

Lemma filter_all {A} (P : A → Prop) `{∀ x, Decision (P x)} (l : list A) :
  Forall P l → filter P l = l.
Proof.
  induction 1 as [|x l Hx Hl IH]; [done|].
  rewrite filter_cons_True by done. by rewrite IH.
Qed.

Lemma ranked_sorted_leb (query : string) (records : list FileRecord) :
  StronglySorted (λ a b, record_leb query a b = true)
    (Py.sorted (record_leb query) (survivors query records)).
Proof.
  apply sorted_StronglySorted; [apply record_leb_total | apply record_leb_trans].
Qed.

Lemma overlap_of_mono (Q Q' : gset string) (rec : FileRecord) :
  Q ⊆ Q' → (overlap_of Q rec ≤ overlap_of Q' rec)%nat.
Proof.
  intros Hsub. unfold overlap_of. cbv zeta.
  set (N := list_to_set (_tokenize (name rec)) : gset string).
  assert (Hle : (size (Q ∩ N) ≤ size (Q' ∩ N))%nat)
    by (apply subseteq_size, intersection_mono_r, Hsub).
  destruct (Nat.eqb_spec (size (Q ∩ N)) 0) as [Hz|Hnz]; cbn [andb].
  - destruct (existsb _ (elements Q)) eqn:Hex.
    + apply existsb_elements in Hex as (t & Ht & Hc).
      assert (Hex' : existsb (λ t, Py.contains t (Py.lower (name rec)))
                       (elements Q') = true).
      { apply existsb_elements. exists t. split; [by apply Hsub | done]. }
      rewrite Hex'. destruct (Nat.eqb_spec (size (Q' ∩ N)) 0); cbn [andb]; lia.
    + rewrite Hz. lia.
  - destruct (Nat.eqb_spec (size (Q' ∩ N)) 0); cbn [andb]; lia.
Qed.

End Ranking.

(** X21. The records returned are the best: a record of the input that is
    not returned scores no higher than any record that is. *)
Theorem search_files_returns_best (query : string)
    (records : list FileRecord) (k : Z) :
  ∀ kept left_out,
    kept ∈ search_files query records k →
    left_out ∈ records →
    left_out ∉ search_files query records k →
    (score query left_out ≤ score query kept)%nat.
Proof.
  intros kept left_out Hkept Hin Hout.
  rewrite search_files_unfold in Hkept, Hout.
  destruct (slice_to_take k (Py.sorted (record_leb query)
                               (survivors query records))) as [n Hn].
  rewrite Hn in Hkept, Hout.
  destruct (decide (0 < score query left_out)%nat) as [Hpos|]; [|lia].
  assert (Hranked : left_out ∈ Py.sorted (record_leb query)
                                (survivors query records)).
  { rewrite sorted_perm. by apply list_elem_of_filter. }
  rewrite <- (take_drop n) in Hranked.
  apply elem_of_app in Hranked as [?|Hdrop]; [done|].
  destruct (ranking_facts query records) as (_ & Hsorted & _).
  cbv zeta in Hsorted. rewrite <- (take_drop n) in Hsorted.
  pose proof (StronglySorted_app_1_elem_of _ _ _ _ _ Hsorted Hkept Hdrop) as Hr.
  unfold ranks_before in Hr. lia.
Qed.

Lemma search_files_returns_best_witness :
  let records := [named "report.csv"; named "report_invoice.txt"] in
  (score "invoice report" (named "report.csv")
   ≤ score "invoice report" (named "report_invoice.txt"))%nat.
Proof.
  intros records.
  apply (search_files_returns_best "invoice report" records 1).
  - vm_compute. left.
  - left.
  - vm_compute. intros H. apply list_elem_of_singleton in H. discriminate H.
Defined.

(** X22. Searching among the records that a search returned, with the same
    query and a cap that is not negative, returns them again in the same
    order. *)
Theorem search_files_again (query : string) (records : list FileRecord)
    (k : Z) :
  0 ≤ k →
  search_files query (search_files query records k) k
  = search_files query records k.
Proof.
  intros Hk. set (result := search_files query records k).
  assert (Hres : result = take (Z.to_nat k)
            (Py.sorted (record_leb query) (survivors query records))).
  { unfold result. by rewrite search_files_unfold, slice_to_pos. }
  assert (Hpos : survivors query result = result).
  { unfold survivors. apply filter_all. apply Forall_forall.
    intros rec Hin. rewrite Hres in Hin. apply subseteq_take in Hin.
    rewrite sorted_perm in Hin. by apply list_elem_of_filter in Hin as [? _]. }
  assert (Hsorted : StronglySorted (λ a b, record_leb query a b = true) result).
  { pose proof (ranked_sorted_leb query records) as Hs.
    rewrite <- (take_drop (Z.to_nat k)) in Hs.
    apply StronglySorted_app_1_l in Hs. by rewrite Hres. }
  rewrite search_files_unfold, Hpos, sorted_fixed, slice_to_pos by done.
  apply take_ge. rewrite Hres, length_take. lia.
Qed.

Lemma search_files_again_witness :
  let records :=
    [named "report.csv"; named "invoice_draft.txt"; named "Invoice_2023.pdf"] in
  0 ≤ 5
  ∧ search_files "invoice" (search_files "invoice" records 5) 5
    = search_files "invoice" records 5.
Proof.
  intros records. split; [lia|].
  apply (search_files_again "invoice" records 5). lia.
Defined.

(** X23. More words in the query never lower a score: when every token of
    one query is a token of another, each record scores at least as high
    for the other, so every record that matches the first matches the
    second. *)
Theorem score_monotone (query query' : string) (rec : FileRecord) :
  (∀ t, t ∈ _tokenize query → t ∈ _tokenize query') →
  (score query rec ≤ score query' rec)%nat.
Proof.
  intros Hsub. unfold score. apply overlap_of_mono.
  intros t Ht. unfold query_tokens in *.
  apply elem_of_list_to_set. apply Hsub. by apply elem_of_list_to_set in Ht.
Qed.

Lemma score_monotone_witness :
  (score "invoice" (named "invoice_2023.pdf")
   ≤ score "invoice 2023" (named "invoice_2023.pdf"))%nat.
Proof.
  apply score_monotone. intros t Ht.
  change (t ∈ ["invoice"]) in Ht. apply list_elem_of_singleton in Ht as ->.
  change ("invoice" ∈ ["invoice"; "2023"]). left.
Defined.
